(** * DiagLazyTensor

    A shallow embedding of [gpytorch/lazy/diag_lazy_tensor.py]: the lazy
    representation of a diagonal matrix by its diagonal, together with the
    part of the dense tensor library (torch) that the class calls into.

    Layout of the development:
    - [result]: Python exceptions as an error monad;
    - [Scalar]: the element type of a tensor, with the integers and IEEE
      binary64 numbers as instances;
    - [Torch]: tensors as a shape and row-major storage, and the tensor
      operations used by the class;
    - [Lazy]: the class [DiagLazyTensor] itself, method by method;
    - lemmas on the tensor operations, then the properties of the class. *)

From Stdlib Require Import ZArith Floats.
From stdpp Require Import base list numbers.

(** ** Exceptions *)

(** The failures torch signals in the operations modelled below.  The source
    file raises nothing of its own: every failure of a method is one of
    these, raised by the tensor operation that detects it. *)
Inductive error : Type :=
| DimOutOfRange      (* a dimension argument outside [-rank, rank) *)
| ExpandMismatch     (* expand: a dimension that is neither equal nor 1 *)
| BroadcastMismatch  (* elementwise operation on incompatible shapes *)
| InvalidViewShape   (* view: the shape does not fit the number of elements *)
| IndexOutOfRange    (* indexing outside the indexed dimension *)
| NegativeSize       (* a negative size given to a factory function *)
| NotVectorOrMatrix. (* torch.diag on a tensor that is neither 1-D nor 2-D *)

Inductive result (A : Type) : Type :=
| Ok (a : A)
| Err (e : error).
Arguments Ok {A} a.
Arguments Err {A} e.

Definition bind {A B : Type} (m : result A) (k : A → result B) : result B :=
  match m with
  | Ok a => k a
  | Err e => Err e
  end.

Notation "x <- m ;; k" := (bind m (fun x => k))
  (at level 100, m at next level, right associativity, only parsing).

Fixpoint mapR {A B : Type} (f : A → result B) (l : list A) : result (list B) :=
  match l with
  | [] => Ok []
  | x :: l' => y <- f x ;; ys <- mapR f l' ;; Ok (y :: ys)
  end.

(** ** Scalars *)

(** The element type of a tensor.  The class works for every dtype, so the
    development is generic in it. *)
Class Scalar (R : Type) : Type := {
  szero : R;
  sone : R;
  sadd : R → R → R;
  smul : R → R → R
}.

(** Elementwise square root; torch defines it on floating dtypes only. *)
Class Sqrt (R : Type) : Type := ssqrt : R → R.

(** The two laws of exact arithmetic that masking by a 0/1 indicator
    relies on. *)
Class ScalarLaws (R : Type) `{Scalar R} : Prop := {
  smul_one_r : ∀ x : R, smul x sone = x;
  smul_zero_r : ∀ x : R, smul x szero = szero
}.

#[export] Instance Z_scalar : Scalar Z :=
  {| szero := 0%Z; sone := 1%Z; sadd := Z.add; smul := Z.mul |}.

#[export] Instance Z_laws : ScalarLaws Z.
Proof. split; intros x; simpl; lia. Qed.

#[export] Instance float_scalar : Scalar float :=
  {| szero := 0%float; sone := 1%float; sadd := PrimFloat.add; smul := PrimFloat.mul |}.

#[export] Instance float_sqrt : Sqrt float := PrimFloat.sqrt.

(** ** The tensor library *)

Module Torch.

(** A tensor is its sizes and its elements in row-major order.  Every tensor
    of the model is contiguous: strides and storage sharing are not
    represented. *)
Record tensor (A : Type) : Type := Tensor { shape : list nat; data : list A }.
Arguments Tensor {A} shape data.
Arguments shape {A} t.
Arguments data {A} t.

Definition numel (s : list nat) : nat := foldr Nat.mul 1 s.

(** The invariant of a tensor value. *)
Definition wf {A : Type} (t : tensor A) : Prop := length (data t) = numel (shape t).

Definition ndimension {A : Type} (t : tensor A) : nat := length (shape t).

(** A dimension argument [dim] of a rank-[rank] tensor; negative values count
    from the end. *)
Definition wrap_dim (rank : nat) (dim : Z) : result nat :=
  if decide (0 ≤ dim < Z.of_nat rank)%Z then Ok (Z.to_nat dim)
  else if decide (- Z.of_nat rank ≤ dim < 0)%Z then Ok (Z.to_nat (dim + Z.of_nat rank))
  else Err DimOutOfRange.

(** [t.size(dim)] *)
Definition size {A : Type} (t : tensor A) (dim : Z) : result nat :=
  d <- wrap_dim (ndimension t) dim ;;
  match shape t !! d with
  | Some n => Ok n
  | None => Err DimOutOfRange
  end.

(** [t.unsqueeze(dim)]: a dimension of size one inserted at [dim], which
    ranges over [-rank-1, rank]. *)
Definition unsqueeze {A : Type} (t : tensor A) (dim : Z) : result (tensor A) :=
  d <- wrap_dim (S (ndimension t)) dim ;;
  Ok (Tensor (take d (shape t) ++ 1 :: drop d (shape t)) (data t)).

(** [n] consecutive blocks of [k] elements. *)
Fixpoint chunks {A : Type} (k n : nat) (l : list A) : list (list A) :=
  match n with
  | 0 => []
  | S n' => take k l :: chunks k n' (drop k l)
  end.

(** Shapes of equal rank: each source size equals the target's or is 1. *)
Fixpoint expandable (src tgt : list nat) : bool :=
  match src, tgt with
  | [], [] => true
  | s :: src', t :: tgt' =>
      (bool_decide (s = t) || bool_decide (s = 1)) && expandable src' tgt'
  | _, _ => false
  end.

(** The elements of the expanded tensor: along a dimension of equal size the
    blocks are expanded one by one, along a dimension of size 1 the single
    expanded block is repeated. *)
Fixpoint expand_data {A : Type} (src tgt : list nat) (l : list A) : list A :=
  match src, tgt with
  | s :: src', t :: tgt' =>
      if decide (s = t)
      then chunks (numel src') s l ≫= expand_data src' tgt'
      else mjoin (replicate t (expand_data src' tgt' l))
  | _, _ => l
  end.

(** Missing leading dimensions count as 1. *)
Definition left_pad (n : nat) (s : list nat) : list nat :=
  replicate (n - length s) 1 ++ s.

(** [t.expand(sizes)] *)
Definition expand {A : Type} (t : tensor A) (sizes : list nat) : result (tensor A) :=
  let src := left_pad (length sizes) (shape t) in
  if decide (ndimension t ≤ length sizes) then
    if expandable src sizes
    then Ok (Tensor sizes (expand_data src sizes (data t)))
    else Err ExpandMismatch
  else Err ExpandMismatch.

(** [t.expand_as(other)] *)
Definition expand_as {A B : Type} (t : tensor A) (other : tensor B) : result (tensor A) :=
  expand t (shape other).

Fixpoint broadcast_dims (s1 s2 : list nat) : result (list nat) :=
  match s1, s2 with
  | [], [] => Ok []
  | a :: s1', b :: s2' =>
      rest <- broadcast_dims s1' s2' ;;
      if decide (a = b) then Ok (a :: rest)
      else if decide (a = 1) then Ok (b :: rest)
      else if decide (b = 1) then Ok (a :: rest)
      else Err BroadcastMismatch
  | _, _ => Err BroadcastMismatch
  end.

(** The common shape of two operands of an elementwise operation. *)
Definition broadcast_shapes (s1 s2 : list nat) : result (list nat) :=
  let n := length s1 `max` length s2 in
  broadcast_dims (left_pad n s1) (left_pad n s2).

(** An elementwise binary operation with broadcasting. *)
Definition map2 {A B C : Type} (f : A → B → C) (a : tensor A) (b : tensor B)
    : result (tensor C) :=
  s <- broadcast_shapes (shape a) (shape b) ;;
  a' <- expand a s ;;
  b' <- expand b s ;;
  Ok (Tensor s (zip_with f (data a') (data b'))).

(** The position in the storage of the element at the multi-index [idx],
    when [idx] is within the shape. *)
Fixpoint offset (s idx : list nat) : option nat :=
  match s, idx with
  | [], [] => Some 0
  | n :: s', i :: idx' =>
      if decide (i < n) then (λ o, i * numel s' + o) <$> offset s' idx' else None
  | _, _ => None
  end.

(** [t[i0, ..., ik]] for non-negative integers: one element of [t]. *)
Definition get {A : Type} (t : tensor A) (idx : list nat) : option A :=
  offset (shape t) idx ≫= λ o, data t !! o.

(** An elementwise unary operation. *)
Definition map1 {A B : Type} (f : A → B) (t : tensor A) : tensor B :=
  Tensor (shape t) (f <$> data t).

(** [t.view(sizes)], where one size may be -1 and is then inferred.  As in
    torch's [infer_size]: a size below -1 or a second -1 is refused; without
    a -1 the sizes must multiply to the number of elements; with one, the
    known sizes must multiply to a positive divisor of it. *)
Definition view {A : Type} (t : tensor A) (sizes : list Z) : result (tensor A) :=
  let n := numel (shape t) in
  let newsize := numel (Z.to_nat <$> filter (λ z, z ≠ (-1)%Z) sizes) in
  if bool_decide (Exists (λ z, (z < -1)%Z) sizes) then Err InvalidViewShape
  else
    match length (filter (λ z, z = (-1)%Z) sizes) with
    | 0 =>
        if decide (n = newsize)
        then Ok (Tensor (Z.to_nat <$> sizes) (data t))
        else Err InvalidViewShape
    | 1 =>
        if decide (0 < newsize ∧ n `mod` newsize = 0)
        then Ok (Tensor ((λ z, if decide (z = (-1)%Z) then n `div` newsize else Z.to_nat z)
                           <$> sizes) (data t))
        else Err InvalidViewShape
    | _ => Err InvalidViewShape
    end.

(** An index into a dimension of size [n]; negative values count from the
    end. *)
Definition wrap_index (n : nat) (i : Z) : result nat :=
  if decide (0 ≤ i < Z.of_nat n)%Z then Ok (Z.to_nat i)
  else if decide (- Z.of_nat n ≤ i < 0)%Z then Ok (Z.to_nat (i + Z.of_nat n))
  else Err IndexOutOfRange.

(** The [k] elements of block number [i]. *)
Definition block {A : Type} (k i : nat) (l : list A) : list A := take k (drop (i * k) l).

(** [t[idx]] for an integer tensor [idx]: the result has the shape of [idx]
    followed by the remaining dimensions of [t]. *)
Definition getitem1 {A : Type} (t : tensor A) (idx : tensor Z) : result (tensor A) :=
  match shape t with
  | n :: rest =>
      rows <- mapR (λ i, j <- wrap_index n i ;; Ok (block (numel rest) j (data t)))
                   (data idx) ;;
      Ok (Tensor (shape idx ++ rest) (mjoin rows))
  | [] => Err IndexOutOfRange
  end.

(** [t[idx0, idx1]] for two integer tensors, which are broadcast together. *)
Definition getitem2 {A : Type} (t : tensor A) (idx0 idx1 : tensor Z) : result (tensor A) :=
  match shape t with
  | n0 :: n1 :: rest =>
      ij <- map2 pair idx0 idx1 ;;
      rows <- mapR (λ '(i, j),
                      i' <- wrap_index n0 i ;;
                      j' <- wrap_index n1 j ;;
                      Ok (block (numel rest) (i' * n1 + j') (data t)))
                   (data ij) ;;
      Ok (Tensor (shape ij ++ rest) (mjoin rows))
  | _ => Err IndexOutOfRange
  end.

(** [a.eq(b)]: elementwise comparison. *)
Definition eq (a b : tensor Z) : result (tensor bool) :=
  map2 (λ x y, bool_decide (x = y)) a b.

Section Arith.
Context {R : Type} `{Scalar R}.

(** [mask.type_as(t)]: a comparison result in the dtype of [t]. *)
Definition type_as (mask : tensor bool) : tensor R :=
  map1 (λ b : bool, if b then sone else szero) mask.

(** [a * b] and [a + b] *)
Definition mul (a b : tensor R) : result (tensor R) := map2 smul a b.
Definition add (a b : tensor R) : result (tensor R) := map2 sadd a b.

(** The elementwise sum of [rows], each of length [k].  torch leaves the
    order of the additions open; here they run from zero through the rows in
    order.  The value is torch's wherever the order does not matter, that is
    where addition commutes and associates; for a floating dtype torch may
    return another rounding of the sum. *)
Definition sum_rows (k : nat) (rows : list (list R)) : list R :=
  foldl (zip_with sadd) (replicate k szero) rows.

(** The storage after summing a dimension of size [m] that has [outer]
    elements before it and [inner] elements after it: each of the [outer]
    blocks is [m] rows of length [inner], which are added up. *)
Definition sum_dim (outer m inner : nat) (l : list R) : list R :=
  chunks (m * inner) outer l ≫= λ blk, sum_rows inner (chunks inner m blk).

(** [t.sum(dim)]: the dimension [dim] is summed away.  A 0-dimensional tensor
    accepts the dimensions -1 and 0 and is returned as it is. *)
Definition sum (t : tensor R) (dim : Z) : result (tensor R) :=
  match shape t with
  | [] => if decide (-1 ≤ dim ≤ 0)%Z then Ok t else Err DimOutOfRange
  | _ :: _ =>
      d <- wrap_dim (ndimension t) dim ;;
      let pre := take d (shape t) in
      let m := default 0 (shape t !! d) in
      let post := drop (S d) (shape t) in
      Ok (Tensor (pre ++ post) (sum_dim (numel pre) m (numel post) (data t)))
  end.

(** [torch.diag(t)]: a vector becomes the square matrix with the vector on
    its main diagonal and zero elsewhere; of a matrix the main diagonal is
    extracted. *)
Definition diag (t : tensor R) : result (tensor R) :=
  match shape t with
  | [n] =>
      Ok (Tensor [n; n] (mjoin (imap (λ i x, <[i := x]> (replicate n szero)) (data t))))
  | [r; c] =>
      Ok (Tensor [r `min` c] (omap (λ i, data t !! (i * c + i)) (seq 0 (r `min` c))))
  | _ => Err NotVectorOrMatrix
  end.

(** [t.sqrt()] *)
Definition sqrt `{Sqrt R} (t : tensor R) : tensor R := map1 ssqrt t.

(** [torch.randn(sizes)].  The generator is a parameter: [gen i] is the
    [i]-th standard normal draw of the call. *)
Definition randn (gen : nat → R) (sizes : list Z) : result (tensor R) :=
  if bool_decide (Exists (λ z, (z < 0)%Z) sizes) then Err NegativeSize
  else
    let s := Z.to_nat <$> sizes in
    Ok (Tensor s (gen <$> seq 0 (numel s))).

End Arith.

End Torch.

(** ** The class *)

Module Lazy.
Import Torch.

Section DiagLazyTensor.
Context {R : Type} `{Scalar R}.

(** Operands of [__add__] that are not instances of [DiagLazyTensor]: the
    other lazy variants, which live outside this file. *)
Context {X : Type}.

(** An instance holds its diagonal, a tensor of shape [(n)] or [(batch, n)].
    The constructor checks nothing. *)
Record DiagLazyTensor : Type := { _diag : tensor R }.

Definition __init__ (diag : tensor R) : DiagLazyTensor := {| _diag := diag |}.

(** The lazy tensors [__add__] receives and returns.  [AddedDiagLazyTensor]
    is the lazily composed matrix-plus-diagonal of a sibling file; here it
    is the pair of its two constructor arguments. *)
Inductive LazyTensor : Type :=
| Diagonal (d : DiagLazyTensor)
| AddedDiagLazyTensor (lazy_var0 lazy_var1 : LazyTensor)
| Foreign (x : X).

Definition _size (self : DiagLazyTensor) : result (list nat) :=
  if decide (Torch.ndimension (_diag self) = 2) then
    b <- size (_diag self) 0 ;;
    n <- size (_diag self) (-1) ;;
    n' <- size (_diag self) (-1) ;;
    Ok [b; n; n']
  else
    n <- size (_diag self) (-1) ;;
    n' <- size (_diag self) (-1) ;;
    Ok [n; n'].

(** Modelled from the spec: [LazyTensor.size] of the base class, which is
    not in this file.  The spec has [size()] return [(batch?, n, n)], which
    is what [_size] computes. *)
Definition size (self : DiagLazyTensor) : result (list nat) := _size self.

(** Modelled from the spec: [LazyTensor.ndimension] of the base class, the
    number of entries of [size()]: 2 for an unbatched matrix, 3 for a
    batched one. *)
Definition ndimension (self : DiagLazyTensor) : result nat :=
  s <- size self ;; Ok (length s).

(** Python's [and] does not evaluate [self.ndimension()] when [rhs] is not a
    vector. *)
Definition _matmul (self : DiagLazyTensor) (rhs : tensor R) : result (tensor R) :=
  let otherwise :=
    u <- unsqueeze (_diag self) (-1) ;;
    e <- expand_as u rhs ;;
    mul e rhs in
  if decide (Torch.ndimension rhs = 1) then
    nd <- ndimension self ;;
    if decide (nd = 2) then mul (_diag self) rhs else otherwise
  else otherwise.

Definition _t_matmul (self : DiagLazyTensor) (rhs : tensor R) : result (tensor R) :=
  _matmul self rhs.

(** The result is a Python tuple with one entry. *)
Definition _quad_form_derivative (self : DiagLazyTensor) (left_vecs right_vecs : tensor R)
    : result (list (tensor R)) :=
  res <- mul left_vecs right_vecs ;;
  res <- (if decide (Torch.ndimension (_diag self) < Torch.ndimension res)
          then sum res (-1) else Ok res) ;;
  Ok [res].

Definition _transpose_nonbatch (self : DiagLazyTensor) : DiagLazyTensor := self.

Definition _batch_get_indices (self : DiagLazyTensor)
    (batch_indices left_indices right_indices : tensor Z) : result (tensor R) :=
  eq_ <- eq left_indices right_indices ;;
  let equal_indices := type_as eq_ in
  d <- getitem2 (_diag self) batch_indices left_indices ;;
  mul d equal_indices.

Definition _get_indices (self : DiagLazyTensor) (left_indices right_indices : tensor Z)
    : result (tensor R) :=
  eq_ <- eq left_indices right_indices ;;
  let equal_indices := type_as eq_ in
  d <- getitem1 (_diag self) left_indices ;;
  mul d equal_indices.

Definition add_diag (self : DiagLazyTensor) (added_diag : tensor R) : result DiagLazyTensor :=
  e <- expand_as added_diag (_diag self) ;;
  s <- add (_diag self) e ;;
  Ok (__init__ s).

Definition __add__ (self : DiagLazyTensor) (other : LazyTensor) : result LazyTensor :=
  match other with
  | Diagonal other =>
      s <- add (_diag self) (_diag other) ;;
      Ok (Diagonal (__init__ s))
  | _ => Ok (AddedDiagLazyTensor other (Diagonal self))
  end.

Definition diag (self : DiagLazyTensor) : tensor R := _diag self.

(** [super_evaluate] stands for [LazyTensor.evaluate], the dense evaluation
    of the base class, which is not in this file. *)
Definition evaluate (super_evaluate : DiagLazyTensor → result (tensor R))
    (self : DiagLazyTensor) : result (tensor R) :=
  nd <- ndimension self ;;
  if decide (nd = 2) then Torch.diag (_diag self) else super_evaluate self.

Definition sum_batch (self : DiagLazyTensor) (sum_batch_size : option Z)
    : result DiagLazyTensor :=
  n <- Torch.size (_diag self) (-1) ;;
  diag <- match sum_batch_size with
          | None => view (_diag self) [(-1)%Z; Z.of_nat n]
          | Some g => view (_diag self) [(-1)%Z; g; Z.of_nat n]
          end ;;
  s <- sum diag (-2) ;;
  Ok (__init__ s).

(** [gen] is the random generator behind [torch.randn]; the [dtype] and
    [device] arguments carry no value and are left out. *)
Definition zero_mean_mvn_samples `{Sqrt R} (gen : nat → R) (self : DiagLazyTensor)
    (num_samples : Z) : result (tensor R) :=
  nd <- ndimension self ;;
  base_samples <-
    (if decide (nd = 3) then
       n0 <- Torch.size (_diag self) 0 ;;
       n1 <- Torch.size (_diag self) 1 ;;
       randn gen [num_samples; Z.of_nat n0; Z.of_nat n1]
     else
       n0 <- Torch.size (_diag self) 0 ;;
       randn gen [num_samples; Z.of_nat n0]) ;;
  u <- unsqueeze (_diag self) 0 ;;
  mul (sqrt u) base_samples.

End DiagLazyTensor.

Arguments DiagLazyTensor R : clear implicits.
Arguments LazyTensor R X : clear implicits.

End Lazy.

(** ** Notions used in the statements *)

(** What the product with the 0/1 mask of [_get_indices] gives at one
    position: the diagonal entry [x] times 1 where the row index [r] equals
    the column index [c], times 0 where it does not. *)
Definition masked {R : Type} `{Scalar R} (x : R) (r c : Z) : R :=
  smul x (if decide (r = c) then sone else szero).

(** The multi-index into an operand of shape [s] that broadcasting pairs
    with the multi-index [idx] of the result: the indices of the dimensions
    the operand lacks are dropped, and the index along a dimension of size 1
    is 0. *)
Definition broadcast_index (s idx : list nat) : list nat :=
  zip_with (λ n i, if decide (n = 1) then 0 else i) s (drop (length idx - length s) idx).

(** The position in a dimension of size [n] that the index [i] denotes:
    a negative index counts from the end. *)
Definition wrapped (n : nat) (i : Z) : nat :=
  Z.to_nat (if decide (i < 0)%Z then (i + Z.of_nat n)%Z else i).

(** The laws of a semiring that relate the lazy operations to the dense
    matrix they stand for. *)
Class SemiringLaws (R : Type) `{Scalar R} : Prop := {
  sadd_zero_l : ∀ x : R, sadd szero x = x;
  sadd_zero_r : ∀ x : R, sadd x szero = x;
  sadd_assoc : ∀ x y z : R, sadd x (sadd y z) = sadd (sadd x y) z;
  smul_zero_l : ∀ x : R, smul szero x = szero;
  smul_add_l : ∀ x y z : R, smul x (sadd y z) = sadd (smul x y) (smul x z);
  smul_add_r : ∀ x y z : R, smul (sadd x y) z = sadd (smul x z) (smul y z)
}.

#[export] Instance Z_semiring : SemiringLaws Z.
Proof. split; intros; simpl; lia. Qed.

(** Addition that commutes and associates, with zero as its unit: what makes
    a sum independent of the order in which its terms are added.  torch
    leaves that order open, and on floating dtypes does not add from left to
    right; under these laws every order gives one value.  The integers obey
    them, IEEE numbers do not. *)
Class SumLaws (R : Type) `{Scalar R} : Prop := {
  sum_comm : ∀ x y : R, sadd x y = sadd y x;
  sum_assoc : ∀ x y z : R, sadd x (sadd y z) = sadd (sadd x y) z;
  sum_zero_l : ∀ x : R, sadd szero x = x
}.

#[export] Instance Z_sum : SumLaws Z.
Proof. split; intros; simpl; lia. Qed.

(** Multiplication that commutes and associates: what makes the terms of the
    bilinear form regroup around the diagonal entry. *)
Class MulLaws (R : Type) `{Scalar R} : Prop := {
  smul_comm : ∀ x y : R, smul x y = smul y x;
  smul_assoc : ∀ x y z : R, smul x (smul y z) = smul (smul x y) z
}.

#[export] Instance Z_mul : MulLaws Z.
Proof. split; intros; simpl; lia. Qed.

(** ** Trial runs on the spec's examples *)

Module Examples.
Import Torch Lazy.

Definition vec {A : Type} (l : list A) : tensor A := Tensor [length l] l.

Definition d23 : DiagLazyTensor Z := __init__ (vec [2; 3]%Z).

Definition d1234 : tensor Z := Tensor [2; 2] [1; 2; 3; 4]%Z.

(** A base class whose dense evaluation is not available. *)
Definition no_super : DiagLazyTensor Z → result (tensor Z) := λ _, Err NotVectorOrMatrix.

Example matmul_23 : _matmul d23 (vec [5; 7]%Z) = Ok (vec [10; 21]%Z).
Proof. reflexivity. Qed.

Example matmul_23_matrix :
  _matmul d23 (Tensor [2; 3] [1; 2; 3; 4; 5; 6]%Z) = Ok (Tensor [2; 3] [2; 4; 6; 12; 15; 18]%Z).
Proof. reflexivity. Qed.

Example get_indices_23 :
  _get_indices d23 (vec [0; 1]%Z) (vec [0; 1]%Z) = Ok (vec [2; 3]%Z) ∧
  _get_indices d23 (vec [0%Z]) (vec [1%Z]) = Ok (vec [0%Z]).
Proof. split; reflexivity. Qed.

Example evaluate_23 (super : DiagLazyTensor Z → result (tensor Z)) :
  evaluate super d23 = Ok (Tensor [2; 2] [2; 0; 0; 3]%Z).
Proof. reflexivity. Qed.

Example sum_batch_1234 :
  sum_batch (__init__ (Tensor [2; 2] [1; 2; 3; 4]%Z)) None = Ok (__init__ (vec [4; 6]%Z)).
Proof. reflexivity. Qed.

Example sum_batch_groups :
  sum_batch (__init__ (Tensor [4; 2] [1; 2; 3; 4; 5; 6; 7; 8]%Z)) (Some 2%Z)
  = Ok (__init__ (Tensor [2; 2] [4; 6; 12; 14]%Z)).
Proof. reflexivity. Qed.

Example sqrt_of_negative :
  zero_mean_mvn_samples (λ _, 1%float) (__init__ (vec [(-1)%float])) 1
  = Ok (Tensor [1; 1] [nan]).
Proof. reflexivity. Qed.

End Examples.

(** ** Lists cut into blocks *)

Import Torch Lazy.

Section Blocks.
Context {A : Type}.
Implicit Types (l : list A) (k n i j c : nat).

Lemma chunks_length k n l : length (chunks k n l) = n.
Proof. revert l; induction n as [|n IH]; intros l; simpl; [done | by rewrite IH]. Qed.

Lemma chunks_lookup k n l j : j < n → chunks k n l !! j = Some (block k j l).
Proof.
  revert l j; induction n as [|n IH]; intros l j Hj; [lia |].
  destruct j as [|j]; simpl; [done |].
  rewrite IH by lia. unfold block. by rewrite drop_drop.
Qed.

Lemma chunks_lookup_ge k n l j : n ≤ j → chunks k n l !! j = None.
Proof. intros Hj. apply lookup_ge_None. by rewrite chunks_length. Qed.

Lemma block_length k j l : (j + 1) * k ≤ length l → length (block k j l) = k.
Proof. intros Hl. unfold block. rewrite length_take, length_drop. nia. Qed.

Lemma block_lookup k j l c : c < k → block k j l !! c = l !! (j * k + c).
Proof. intros Hc. unfold block. by rewrite lookup_take_lt, lookup_drop. Qed.

Lemma chunks_Forall_length k n l :
  n * k ≤ length l → Forall (λ b, length b = k) (chunks k n l).
Proof.
  intros Hl. apply Forall_lookup. intros j b Hb.
  destruct (decide (j < n)) as [Hj | Hj].
  - rewrite chunks_lookup in Hb by done. injection Hb as <-.
    apply block_length. nia.
  - rewrite chunks_lookup_ge in Hb by lia. done.
Qed.

Lemma chunks_join k n l : length l = n * k → mjoin (chunks k n l) = l.
Proof.
  revert l; induction n as [|n IH]; intros l Hl; simpl in *.
  - by destruct l.
  - rewrite IH; [apply take_drop | rewrite length_drop; lia].
Qed.

(** Looking up in a concatenation of blocks of one length. *)
Lemma lookup_bind_blocks {B : Type} (f : A → list B) k l i c :
  Forall (λ x, length (f x) = k) l → c < k →
  (l ≫= f) !! (i * k + c) = l !! i ≫= λ x, f x !! c.
Proof.
  intros Hl Hc. revert i; induction Hl as [|x l Hx _ IH]; intros i; [done |].
  rewrite bind_cons. destruct i as [|i]; simpl.
  - rewrite lookup_app_l by lia. done.
  - rewrite lookup_app_r by lia. rewrite <- IH. f_equal. lia.
Qed.

Lemma lookup_bind_replicate k l i c :
  c < k → (l ≫= replicate k) !! (i * k + c) = l !! i.
Proof.
  intros Hc. rewrite (lookup_bind_blocks _ k) by
    (try done; apply Forall_forall; intros; apply length_replicate).
  destruct (l !! i); simpl; [by apply lookup_replicate_2 | done].
Qed.

Lemma lookup_join_replicate n l i c :
  i < n → c < length l → mjoin (replicate n l) !! (i * length l + c) = l !! c.
Proof.
  intros Hi Hc. revert i Hi; induction n as [|n IH]; intros i Hi; [lia |].
  destruct i as [|i]; simpl.
  - by rewrite lookup_app_l by lia.
  - rewrite lookup_app_r by lia. rewrite <- (IH i) by lia. f_equal. lia.
Qed.

Lemma length_bind_blocks {B : Type} (f : A → list B) k l :
  Forall (λ x, length (f x) = k) l → length (l ≫= f) = length l * k.
Proof.
  induction 1 as [|x l Hx _ IH]; [done |].
  rewrite bind_cons, length_app, Hx, IH. simpl. lia.
Qed.

Lemma length_bind_replicate k l :
  length (l ≫= replicate k) = length l * k.
Proof.
  induction l as [|x l IH]; [done |].
  rewrite bind_cons, length_app, length_replicate, IH. simpl. lia.
Qed.

Lemma length_join_replicate n l :
  length (mjoin (replicate n l)) = n * length l.
Proof. induction n as [|n IH]; simpl; [done | rewrite length_app, IH; lia]. Qed.

End Blocks.

(** ** Shapes, offsets and dimensions *)

Lemma numel_app (s1 s2 : list nat) : numel (s1 ++ s2) = numel s1 * numel s2.
Proof. induction s1 as [|n s1 IH]; simpl; [lia | rewrite IH; lia]. Qed.

Lemma offset_lt (s idx : list nat) (o : nat) : offset s idx = Some o → o < numel s.
Proof.
  revert idx o; induction s as [|n s IH]; intros [|i idx] o; simpl; try done.
  - intros [= <-]. lia.
  - case_decide; [|done]. destruct (offset s idx) as [o'|] eqn:Ho; [|done].
    intros [= <-]. specialize (IH _ _ Ho). nia.
Qed.

Lemma offset_app (s1 s2 i1 i2 : list nat) (o1 : nat) :
  offset s1 i1 = Some o1 →
  offset (s1 ++ s2) (i1 ++ i2) = (λ o2, o1 * numel s2 + o2) <$> offset s2 i2.
Proof.
  revert i1 o1; induction s1 as [|n s1 IH]; intros [|i i1] o1; simpl; try done.
  - intros [= <-]. by destruct (offset s2 i2).
  - case_decide; [|done]. destruct (offset s1 i1) as [o'|] eqn:Ho; [|done].
    intros [= <-]. rewrite (IH _ _ Ho). destruct (offset s2 i2); simpl; [|done].
    f_equal. rewrite numel_app. lia.
Qed.

Lemma offset_last (s idx : list nat) (k j o : nat) :
  offset s idx = Some o →
  offset (s ++ [k]) (idx ++ [j]) = if decide (j < k) then Some (o * k + j) else None.
Proof.
  intros Ho. rewrite (offset_app _ _ _ _ _ Ho). simpl.
  case_decide; simpl; [f_equal; lia | done].
Qed.

Lemma offset_singleton (n i : nat) : i < n → offset [n] [i] = Some i.
Proof. intros Hi. simpl. rewrite decide_True by done. simpl. f_equal. lia. Qed.

Lemma offset_pair (m n i j : nat) : i < m → j < n → offset [m; n] [i; j] = Some (i * n + j).
Proof.
  intros Hi Hj. simpl. rewrite !decide_True by done. simpl. f_equal. lia.
Qed.

Lemma wrap_dim_nonneg (rank d : nat) : d < rank → wrap_dim rank (Z.of_nat d) = Ok d.
Proof.
  intros Hd. unfold wrap_dim. rewrite decide_True by lia. by rewrite Nat2Z.id.
Qed.

Lemma wrap_dim_neg (rank d : nat) :
  0 < d ≤ rank → wrap_dim rank (- Z.of_nat d) = Ok (rank - d).
Proof.
  intros Hd. unfold wrap_dim. rewrite decide_False by lia. rewrite decide_True by lia.
  f_equal. lia.
Qed.

Lemma wrap_dim_last (rank : nat) : wrap_dim (S rank) (-1) = Ok rank.
Proof.
  replace rank with (S rank - 1) at 2 by lia.
  exact (wrap_dim_neg (S rank) 1 ltac:(lia)).
Qed.

Lemma left_pad_fit (s : list nat) : left_pad (length s) s = s.
Proof. unfold left_pad. by rewrite Nat.sub_diag. Qed.

Lemma expandable_refl (s : list nat) : expandable s s = true.
Proof.
  induction s as [|n s IH]; simpl; [done |].
  by rewrite bool_decide_eq_true_2, IH.
Qed.

Section Expand.
Context {A : Type}.
Implicit Types (l : list A) (t : tensor A).

Lemma expand_data_refl (s : list nat) l : length l = numel s → expand_data s s l = l.
Proof.
  revert l; induction s as [|n s IH]; intros l Hl; simpl in *; [done |].
  rewrite decide_True by done.
  assert (Hall : Forall (λ b : list A, length b = numel s) (chunks (numel s) n l))
    by (apply chunks_Forall_length; lia).
  rewrite <- (chunks_join (numel s) n l) at 2 by lia.
  induction Hall as [|b bs Hb _ IHbs]; [done |].
  rewrite bind_cons. simpl. by rewrite IH, IHbs.
Qed.

Lemma expand_refl t : wf t → expand t (shape t) = Ok t.
Proof.
  intros Hwf. unfold expand, Torch.ndimension. rewrite left_pad_fit.
  rewrite decide_True by done. rewrite expandable_refl, expand_data_refl by done.
  by destruct t.
Qed.

(** A trailing dimension of size 1 expanded to size [k]: every element is
    repeated [k] times. *)
Lemma expand_data_last (s : list nat) (k : nat) l :
  length l = numel s → expand_data (s ++ [1]) (s ++ [k]) l = l ≫= replicate k.
Proof.
  revert l; induction s as [|n s IH]; intros l Hl; simpl in *.
  - destruct l as [|x [|y l]]; simplify_eq/=.
    case_decide; subst; simpl; [done |]. rewrite app_nil_r.
    clear. induction k as [|k IH]; simpl; [done | by rewrite IH].
  - rewrite decide_True by done. rewrite numel_app. simpl. rewrite Nat.mul_1_r.
    assert (Hall : Forall (λ b : list A, length b = numel s) (chunks (numel s) n l))
      by (apply chunks_Forall_length; lia).
    rewrite <- (chunks_join (numel s) n l) at 2 by lia.
    induction Hall as [|b bs Hb _ IHbs]; [done |].
    rewrite bind_cons. simpl. rewrite bind_app. by rewrite IH, IHbs.
Qed.

(** A leading dimension of size 1 expanded to size [n]: the expanded rest is
    repeated [n] times. *)
Lemma expand_data_lead (src tgt : list nat) (n : nat) l :
  length l = numel src →
  expand_data (1 :: src) (n :: tgt) l = mjoin (replicate n (expand_data src tgt l)).
Proof.
  intros Hl. simpl. case_decide; [subst n | done].
  simpl. rewrite take_ge by lia. done.
Qed.

Lemma expandable_last (s : list nat) (k : nat) : expandable (s ++ [1]) (s ++ [k]) = true.
Proof.
  induction s as [|n s IH]; simpl.
  - by rewrite orb_true_r.
  - by rewrite bool_decide_eq_true_2, IH.
Qed.

Lemma expand_last (s : list nat) (k : nat) l :
  length l = numel s →
  expand (Tensor (s ++ [1]) l) (s ++ [k]) = Ok (Tensor (s ++ [k]) (l ≫= replicate k)).
Proof.
  intros Hl. unfold expand, Torch.ndimension.
  assert (Hpad : left_pad (length (s ++ [k])) (shape (Tensor (s ++ [1]) l)) = s ++ [1]).
  { unfold left_pad. simpl. rewrite !length_app. simpl. by rewrite Nat.sub_diag. }
  rewrite Hpad, expandable_last, expand_data_last by done.
  rewrite decide_True; [done | simpl; rewrite !length_app; simpl; lia].
Qed.

Lemma expand_lead (s : list nat) (n : nat) l :
  length l = numel s →
  expand (Tensor (1 :: s) l) (n :: s) = Ok (Tensor (n :: s) (mjoin (replicate n l))).
Proof.
  intros Hl. unfold expand, Torch.ndimension.
  assert (Hpad : left_pad (length (n :: s)) (shape (Tensor (1 :: s) l)) = 1 :: s).
  { unfold left_pad. simpl. by rewrite Nat.sub_diag. }
  assert (Hex : expandable (1 :: s) (n :: s) = true).
  { simpl. by rewrite orb_true_r, expandable_refl. }
  rewrite Hpad, Hex, expand_data_lead, expand_data_refl by done.
  by rewrite decide_True.
Qed.

(** A matrix-shaped [(n, 1)] tensor expanded over a batch: first along the
    columns, then the whole matrix once per batch entry. *)
Lemma expand_matrix_batch (b n k : nat) l :
  length l = n →
  expand (Tensor [n; 1] l) [b; n; k]
  = Ok (Tensor [b; n; k] (mjoin (replicate b (l ≫= replicate k)))).
Proof.
  intros Hl. unfold expand, Torch.ndimension.
  assert (Hpad : left_pad (length [b; n; k]) (shape (Tensor [n; 1] l)) = [1; n; 1]) by done.
  assert (Hex : expandable [1; n; 1] [b; n; k] = true).
  { simpl. by rewrite (bool_decide_eq_true_2 (n = n)), !orb_true_r. }
  rewrite Hpad, Hex, expand_data_lead by (simpl; lia).
  rewrite (expand_data_last [n] k) by (simpl; lia).
  rewrite decide_True; [done | simpl; lia].
Qed.

Lemma expand_data_length (src tgt : list nat) l :
  expandable src tgt = true → length l = numel src →
  length (expand_data src tgt l) = numel tgt.
Proof.
  revert tgt l; induction src as [|s src IH]; intros [|t tgt] l Hex Hl; simpl in *; try done.
  apply andb_true_iff in Hex as [Hst Hex]. destruct (decide (s = t)) as [Heq | Heq].
  - subst t. rewrite (length_bind_blocks _ (numel tgt)), chunks_length; [done |].
    eapply list.Forall_impl; [apply (chunks_Forall_length (numel src) s l); lia |].
    intros blk Hblk. simpl in Hblk. by apply IH.
  - apply orb_true_iff in Hst as [Hst | Hst]; apply bool_decide_eq_true_1 in Hst; [done |].
    subst s. rewrite length_join_replicate, IH by (done || lia). done.
Qed.

(** A successful expansion has the requested shape and is well formed. *)
Lemma expand_Ok t (sizes : list nat) (e : tensor A) :
  wf t → expand t sizes = Ok e → shape e = sizes ∧ wf e.
Proof.
  intros Hw. unfold expand. case_decide as Hrank; [|done].
  destruct (expandable _ sizes) eqn:Hex; [|done]. intros [= <-]. split; [done |].
  unfold wf. simpl. apply expand_data_length; [done |].
  unfold left_pad. rewrite numel_app.
  replace (numel (replicate (length sizes - length (shape t)) 1)) with 1; [by rewrite Hw; lia |].
  generalize (length sizes - length (shape t)). intros k.
  induction k as [|k IHk]; simpl; [done | lia].
Qed.

End Expand.

Lemma broadcast_dims_refl (s : list nat) : broadcast_dims s s = Ok s.
Proof.
  induction s as [|n s IH]; simpl; [done |]. rewrite IH. simpl.
  by rewrite decide_True.
Qed.

Lemma broadcast_shapes_refl (s : list nat) : broadcast_shapes s s = Ok s.
Proof.
  unfold broadcast_shapes. rewrite Nat.max_id, left_pad_fit. apply broadcast_dims_refl.
Qed.

(** An elementwise operation on two tensors of one shape pairs up their
    storages. *)
Lemma map2_same_shape {A B C : Type} (f : A → B → C) (a : tensor A) (b : tensor B) :
  wf a → wf b → shape a = shape b →
  map2 f a b = Ok (Tensor (shape a) (zip_with f (data a) (data b))).
Proof.
  intros Ha Hb Hs. unfold map2. rewrite <- Hs, broadcast_shapes_refl. simpl.
  rewrite expand_refl by done. simpl. rewrite Hs, expand_refl by done. done.
Qed.

Lemma map2_wf {A B C : Type} (f : A → B → C) (s : list nat) (l : list A) (k : list B) :
  length l = numel s → length k = numel s → wf (Tensor s (zip_with f l k)).
Proof. intros Hl Hk. unfold wf. simpl. rewrite length_zip_with. lia. Qed.

Lemma unsqueeze_last {A : Type} (t : tensor A) :
  unsqueeze t (-1) = Ok (Tensor (shape t ++ [1]) (data t)).
Proof.
  unfold unsqueeze, Torch.ndimension. rewrite wrap_dim_last. simpl.
  by rewrite firstn_all, drop_all.
Qed.

Lemma unsqueeze_first {A : Type} (t : tensor A) :
  unsqueeze t 0 = Ok (Tensor (1 :: shape t) (data t)).
Proof.
  unfold unsqueeze. rewrite (wrap_dim_nonneg _ 0) by lia. simpl. by rewrite drop_0.
Qed.

(** ** The size of a diagonal lazy tensor *)

Section Size.
Context {R : Type} `{Scalar R}.
Implicit Types (d : tensor R) (self : DiagLazyTensor R).

Lemma size_unbatched d n : shape d = [n] → _size (__init__ d) = Ok [n; n].
Proof. intros Hs. unfold _size, Torch.size, Torch.ndimension. simpl. by rewrite Hs. Qed.

Lemma size_batched d b n : shape d = [b; n] → _size (__init__ d) = Ok [b; n; n].
Proof. intros Hs. unfold _size, Torch.size, Torch.ndimension. simpl. by rewrite Hs. Qed.

Lemma ndimension_unbatched d n : shape d = [n] → Lazy.ndimension (__init__ d) = Ok 2.
Proof. intros Hs. unfold Lazy.ndimension, Lazy.size. by rewrite (size_unbatched d n). Qed.

Lemma ndimension_batched d b n : shape d = [b; n] → Lazy.ndimension (__init__ d) = Ok 3.
Proof. intros Hs. unfold Lazy.ndimension, Lazy.size. by rewrite (size_batched d b n). Qed.

End Size.

(** ** Products with a diagonal matrix *)

Section Matmul.
Context {R : Type} `{Scalar R}.
Implicit Types (d rhs : tensor R).

(** The general branch of [_matmul] on a right-hand side with one more
    dimension than the diagonal. *)
Lemma matmul_rows d rhs (k : nat) :
  shape d ≠ [] → shape rhs = shape d ++ [k] → wf d → wf rhs →
  _matmul (__init__ d) rhs
  = Ok (Tensor (shape rhs) (zip_with smul (data d ≫= replicate k) (data rhs))).
Proof.
  intros Hne Hs Hd Hrhs. unfold _matmul.
  rewrite decide_False.
  2:{ unfold Torch.ndimension. rewrite Hs, length_app. simpl.
      destruct (shape d); simpl; [done | lia]. }
  simpl. rewrite unsqueeze_last. simpl. unfold expand_as. rewrite Hs.
  rewrite expand_last by done. simpl. unfold mul.
  rewrite map2_same_shape; simpl; try done.
  unfold wf. simpl. rewrite length_bind_replicate, numel_app, Hd. simpl. lia.
Qed.

(** The same branch for an unbatched diagonal and a batch of matrices. *)
Lemma matmul_batch_of_matrices d rhs (b n k : nat) :
  shape d = [n] → shape rhs = [b; n; k] → wf d → wf rhs →
  _matmul (__init__ d) rhs
  = Ok (Tensor [b; n; k]
          (zip_with smul (mjoin (replicate b (data d ≫= replicate k))) (data rhs))).
Proof.
  intros Hsd Hs Hd Hrhs. unfold _matmul.
  rewrite decide_False by (unfold Torch.ndimension; by rewrite Hs).
  simpl. rewrite unsqueeze_last. simpl. unfold expand_as. rewrite Hs, Hsd. simpl.
  rewrite expand_matrix_batch by (rewrite Hd, Hsd; simpl; lia).
  simpl. unfold mul. rewrite map2_same_shape; simpl; try done.
  unfold wf. simpl. rewrite length_join_replicate, length_bind_replicate, Hd, Hsd.
  simpl. lia.
Qed.

End Matmul.

Lemma get_Some {A : Type} (t : tensor A) (idx : list nat) (x : A) :
  get t idx = Some x ↔ ∃ o, offset (shape t) idx = Some o ∧ data t !! o = Some x.
Proof.
  unfold get. destruct (offset (shape t) idx) as [o|]; simpl.
  - split; [by exists o | by intros (? & [= <-] & ?)].
  - split; [done | by intros (? & ? & ?)].
Qed.

Section MatmulSpec.
Context {R : Type} `{Scalar R}.
Implicit Types (d rhs v : tensor R).

(** C1, as the code has it.  [_matmul] on an unbatched diagonal [d] of
    length [n] and a vector [v] of length [n] is the elementwise product
    [d * v].  In every other case, where the diagonal is batched or the
    right-hand side is not a vector, [_matmul] does not always return: it
    fails when the diagonal with a trailing dimension of size 1 cannot be
    expanded to the shape of the right-hand side, and otherwise returns the
    elementwise product of that expansion with the right-hand side.  The
    expansion repeats the diagonal along the last dimension: for a diagonal
    of shape [s] (unbatched [(n)] or batched [(B, n)]) and a right-hand side
    of shape [s ++ [k]], and for an unbatched diagonal and a batch of
    matrices of shape [(b, n, k)], the element of the result at
    [(.., i, j)] is the diagonal's element at [(.., i)] times the right-hand
    side's at [(.., i, j)].  It cannot be done for a batched diagonal and a
    right-hand side with fewer than three dimensions, a plain vector or a
    single matrix: there [_matmul] fails. *)
Theorem matmul_scales_rows :
  (∀ (n : nat) d v, shape d = [n] → shape v = [n] → wf d → wf v →
     _matmul (__init__ d) v = Ok (Tensor [n] (zip_with smul (data d) (data v))))
  ∧ (∀ d rhs, wf d → wf rhs →
       Torch.ndimension rhs ≠ 1 ∨ (∃ b n : nat, shape d = [b; n]) →
       match expand_as (Tensor (shape d ++ [1]) (data d)) rhs with
       | Ok e => _matmul (__init__ d) rhs
                 = Ok (Tensor (shape rhs) (zip_with smul (data e) (data rhs)))
       | Err err => _matmul (__init__ d) rhs = Err err
       end)
  ∧ (∀ d rhs (k : nat),
       shape d ≠ [] → shape rhs = shape d ++ [k] → wf d → wf rhs →
       ∃ res, _matmul (__init__ d) rhs = Ok res ∧ shape res = shape rhs ∧ wf res ∧
         ∀ idx j x y, get d idx = Some x → get rhs (idx ++ [j]) = Some y →
                      get res (idx ++ [j]) = Some (smul x y))
  ∧ (∀ d rhs (b n k : nat),
       shape d = [n] → shape rhs = [b; n; k] → wf d → wf rhs →
       ∃ res, _matmul (__init__ d) rhs = Ok res ∧ shape res = shape rhs ∧ wf res ∧
         ∀ c i j x y, get d [i] = Some x → get rhs [c; i; j] = Some y →
                      get res [c; i; j] = Some (smul x y))
  ∧ (∀ d rhs (b n : nat),
       shape d = [b; n] → Torch.ndimension rhs < 3 →
       _matmul (__init__ d) rhs = Err ExpandMismatch).
Proof.
  split; [|split; [|split; [|split]]].
  - intros n d v Hd Hv Hwd Hwv. unfold _matmul.
    rewrite decide_True by (unfold Torch.ndimension; by rewrite Hv).
    rewrite (ndimension_unbatched d n) by done. simpl.
    unfold mul. rewrite map2_same_shape by congruence. by rewrite Hd.
  - intros d rhs Hwd Hwrhs Hcase.
    assert (Hrun : _matmul (__init__ d) rhs
                   = bind (expand_as (Tensor (shape d ++ [1]) (data d)) rhs)
                          (λ e, mul e rhs)).
    { unfold _matmul. simpl. rewrite unsqueeze_last. simpl.
      destruct Hcase as [Hrank | (b & n & Hs)].
      - by rewrite decide_False.
      - case_decide; [|done]. by rewrite (ndimension_batched d b n). }
    rewrite Hrun. unfold expand_as.
    destruct (expand _ (shape rhs)) as [e | err] eqn:He; [|done].
    apply expand_Ok in He as [Hse Hwe].
    2:{ unfold wf. simpl. rewrite numel_app, Hwd. simpl. lia. }
    simpl. unfold mul. rewrite map2_same_shape by done. by rewrite Hse.
  - intros d rhs k Hne Hs Hwd Hwrhs.
    eexists. split; [by apply (matmul_rows d rhs k) |].
    split; [done |]. split.
    { apply map2_wf; [|done].
      rewrite length_bind_replicate, Hs, numel_app, Hwd. simpl. lia. }
    intros idx j x y (o & Ho & Hx)%get_Some (o' & Ho' & Hy)%get_Some.
    rewrite Hs, (offset_last _ _ _ _ _ Ho) in Ho'.
    case_decide as Hj; [|done]. injection Ho' as <-.
    apply get_Some. exists (o * k + j). simpl. split.
    + rewrite Hs, (offset_last _ _ _ _ _ Ho). by rewrite decide_True.
    + rewrite lookup_zip_with, lookup_bind_replicate, Hx, Hy by done. done.
  - intros d rhs b n k Hsd Hs Hwd Hwrhs.
    eexists. split; [by apply (matmul_batch_of_matrices d rhs b n k) |].
    split; [done |]. split.
    { apply map2_wf; [|by rewrite Hwrhs, Hs].
      rewrite length_join_replicate, length_bind_replicate, Hwd, Hsd. simpl. lia. }
    intros c i j x y (o & Ho & Hx)%get_Some (o' & Ho' & Hy)%get_Some.
    rewrite Hsd in Ho. rewrite Hs in Ho'. simpl in Ho, Ho'.
    repeat case_decide; simplify_eq/=.
    apply get_Some. simpl. rewrite !decide_True by done. simpl.
    eexists. split; [done |].
    rewrite lookup_zip_with, Hy.
    replace (c * (n * (k * 1)) + (i * (k * 1) + (j * 1 + 0)))
      with (c * length (data d ≫= replicate k) + (i * k + j))
      by (rewrite length_bind_replicate, Hwd, Hsd; simpl; lia).
    rewrite lookup_join_replicate, lookup_bind_replicate; try done.
    + replace (i * 1 + 0) with i in Hx by lia. by rewrite Hx.
    + rewrite length_bind_replicate, Hwd, Hsd. simpl. nia.
  - intros d rhs b n Hsd Hrank.
    assert (Hrun : _matmul (__init__ d) rhs
                   = bind (expand_as (Tensor (shape d ++ [1]) (data d)) rhs)
                          (λ e, mul e rhs)).
    { unfold _matmul. simpl. rewrite unsqueeze_last. simpl.
      case_decide; [|done]. by rewrite (ndimension_batched d b n). }
    rewrite Hrun. unfold expand_as, expand. simpl.
    rewrite decide_False; [done |].
    unfold Torch.ndimension in *. simpl. rewrite Hsd. simpl. lia.
Qed.

End MatmulSpec.

(** ** Indexed access *)

Lemma wrap_index_nonneg (n : nat) (i : Z) :
  (0 ≤ i < Z.of_nat n)%Z → wrap_index n i = Ok (Z.to_nat i).
Proof. intros Hi. unfold wrap_index. by rewrite decide_True. Qed.

Lemma mapR_Ok {A B : Type} (f : A → result B) (g : A → B) (l : list A) :
  Forall (λ x, f x = Ok (g x)) l → mapR f l = Ok (g <$> l).
Proof. induction 1 as [|x l Hx _ IH]; simpl; [done | by rewrite Hx, IH]. Qed.

Lemma join_fmap_bind {A B : Type} (f : A → list B) (l : list A) : mjoin (f <$> l) = l ≫= f.
Proof. induction l as [|x l IH]; [done |]. by rewrite fmap_cons, bind_cons, <- IH. Qed.

Section Getitem.
Context {A : Type}.
Implicit Types (t : tensor A) (idx : tensor Z).

(** Indexing a vector by an integer tensor with entries in [[0, n)]. *)
Lemma getitem1_vector t idx (n : nat) :
  shape t = [n] → Forall (λ i, (0 ≤ i < Z.of_nat n)%Z) (data idx) →
  getitem1 t idx
  = Ok (Tensor (shape idx) (data idx ≫= λ i, block 1 (Z.to_nat i) (data t))).
Proof.
  intros Hs Hidx. unfold getitem1. rewrite Hs. simpl.
  rewrite (mapR_Ok _ (λ i, block 1 (Z.to_nat i) (data t))).
  - simpl. by rewrite app_nil_r, join_fmap_bind.
  - rewrite list.Forall_forall in Hidx. apply list.Forall_forall. intros i Hi. simpl.
    by rewrite wrap_index_nonneg by auto.
Qed.

(** Indexing a batch of vectors by two integer tensors of one shape. *)
Lemma getitem2_matrix t idx0 idx1 (b n : nat) :
  shape t = [b; n] → wf idx0 → wf idx1 → shape idx0 = shape idx1 →
  Forall (λ i, (0 ≤ i < Z.of_nat b)%Z) (data idx0) →
  Forall (λ i, (0 ≤ i < Z.of_nat n)%Z) (data idx1) →
  getitem2 t idx0 idx1
  = Ok (Tensor (shape idx0)
          (zip (data idx0) (data idx1)
             ≫= λ ij, block 1 (Z.to_nat ij.1 * n + Z.to_nat ij.2) (data t))).
Proof.
  intros Hs Hw0 Hw1 Hsh H0 H1. unfold getitem2. rewrite Hs.
  rewrite map2_same_shape by done. simpl.
  rewrite (mapR_Ok _ (λ ij, block 1 (Z.to_nat ij.1 * n + Z.to_nat ij.2) (data t))).
  - simpl. by rewrite app_nil_r, join_fmap_bind.
  - apply list.Forall_forall. intros [i j] Hij. simpl.
    apply elem_of_zip_with in Hij as (i' & j' & [= <- <-] & Hi & Hj).
    rewrite list.Forall_forall in H0, H1.
    by rewrite !wrap_index_nonneg by auto.
Qed.

Lemma lookup_bind_singletons {B : Type} (f : B → list A) (l : list B) (o : nat) :
  Forall (λ x, length (f x) = 1) l →
  (l ≫= f) !! o = l !! o ≫= λ x, f x !! 0.
Proof.
  intros Hl. rewrite <- (lookup_bind_blocks f 1 l o 0) by (done || lia).
  f_equal. lia.
Qed.

End Getitem.

Section GetIndices.
Context {R : Type} `{Scalar R}.
Implicit Types (d : tensor R) (lidx ridx bidx : tensor Z).

Lemma masked_exact `{!ScalarLaws R} (x : R) (r c : Z) :
  masked x r c = if decide (r = c) then x else szero.
Proof. unfold masked. destruct (decide (r = c)); [apply smul_one_r | apply smul_zero_r]. Qed.

Lemma masked_equal (x : R) (r c : Z) : r = c → masked x r c = smul x sone.
Proof. intros Heq. unfold masked. by rewrite decide_True. Qed.

Lemma masked_differ (x : R) (r c : Z) : r ≠ c → masked x r c = smul x szero.
Proof. intros Hne. unfold masked. by rewrite decide_False. Qed.

Lemma lookup_mask (x : R) (r c : Z) :
  smul x (if bool_decide (r = c) then sone else szero) = masked x r c.
Proof.
  unfold masked. destruct (decide (r = c));
    [by rewrite bool_decide_eq_true_2 | by rewrite bool_decide_eq_false_2].
Qed.

(** C2, as the code has it.  For a diagonal [d] of length [n] and index
    tensors [lidx] (rows) and [ridx] (columns) of one shape, the row indices
    in [[0, n)], [_get_indices] returns a tensor of that shape whose element
    at each position is the product of [d[r]] with 1 when the row index [r]
    and the column index [c] at that position are equal, and with 0 when
    they differ.  On the diagonal this is [d[r]] whenever [d[r] * 1 = d[r]];
    off the diagonal it is zero whenever [d[r] * 0 = 0], which exact
    arithmetic grants for every entry and IEEE arithmetic does not.
    [_batch_get_indices] does the same on a batched diagonal of shape
    [(b, n)], with [d[p, r]] for the batch index [p] at that position. *)
Theorem get_indices_masks_diagonal :
  (∀ (n : nat) d lidx ridx,
     shape d = [n] → wf d → wf lidx → wf ridx → shape lidx = shape ridx →
     Forall (λ i, (0 ≤ i < Z.of_nat n)%Z) (data lidx) →
     ∃ res, _get_indices (__init__ d) lidx ridx = Ok res
       ∧ shape res = shape lidx ∧ wf res
       ∧ ∀ idx r c, get lidx idx = Some r → get ridx idx = Some c →
           ∃ x, get d [Z.to_nat r] = Some x
             ∧ get res idx = Some (masked x r c)
             ∧ (r = c → smul x sone = x → get res idx = Some x)
             ∧ (r ≠ c → smul x szero = szero → get res idx = Some szero))
  ∧ (∀ (b n : nat) d bidx lidx ridx,
       shape d = [b; n] → wf d → wf bidx → wf lidx → wf ridx →
       shape bidx = shape lidx → shape lidx = shape ridx →
       Forall (λ i, (0 ≤ i < Z.of_nat b)%Z) (data bidx) →
       Forall (λ i, (0 ≤ i < Z.of_nat n)%Z) (data lidx) →
       ∃ res, _batch_get_indices (__init__ d) bidx lidx ridx = Ok res
         ∧ shape res = shape lidx ∧ wf res
         ∧ ∀ idx p r c,
             get bidx idx = Some p → get lidx idx = Some r → get ridx idx = Some c →
             ∃ x, get d [Z.to_nat p; Z.to_nat r] = Some x
               ∧ get res idx = Some (masked x r c)
               ∧ (r = c → smul x sone = x → get res idx = Some x)
               ∧ (r ≠ c → smul x szero = szero → get res idx = Some szero)).
Proof.
  split.
  - intros n d lidx ridx Hsd Hwd Hwl Hwr Hsh Hrange.
    assert (Hblocks : Forall (λ i : Z, length (block 1 (Z.to_nat i) (data d)) = 1) (data lidx)).
    { rewrite list.Forall_forall in Hrange. apply list.Forall_forall. intros i Hi.
      apply block_length. rewrite Hwd, Hsd. simpl. specialize (Hrange i Hi). lia. }
    unfold _get_indices, eq. rewrite map2_same_shape by done. simpl.
    rewrite (getitem1_vector _ _ n) by done. simpl. unfold mul, type_as, map1. simpl.
    rewrite map2_same_shape; simpl; try done.
    2:{ unfold wf. simpl. rewrite (length_bind_blocks _ 1) by done. rewrite Hwl. lia. }
    2:{ unfold wf. simpl. rewrite length_fmap, length_zip_with, Hwl, Hwr, Hsh. lia. }
    eexists. split; [done |]. simpl. split; [done |]. split.
    { apply map2_wf.
      - rewrite (length_bind_blocks _ 1) by done. rewrite Hwl. lia.
      - rewrite length_fmap, length_zip_with, Hwl, Hwr, Hsh. lia. }
    intros idx r c (o & Ho & Hr)%get_Some (o' & Ho' & Hc)%get_Some.
    rewrite <- Hsh, Ho in Ho'. injection Ho' as <-.
    assert (Hin : (0 ≤ r < Z.of_nat n)%Z).
    { rewrite list.Forall_forall in Hrange. apply Hrange.
      by apply list_elem_of_lookup_2 with o. }
    destruct (lookup_lt_is_Some_2 (data d) (Z.to_nat r)) as [x Hx];
      [rewrite Hwd, Hsd; simpl; lia |].
    exists x. split.
    + apply get_Some. exists (Z.to_nat r). split; [|done].
      rewrite Hsd. apply offset_singleton. lia.
    + assert (Hres : get {| shape := shape lidx; data := zip_with smul
          (data lidx ≫= λ i, block 1 (Z.to_nat i) (data d))
          ((λ b0 : bool, if b0 then sone else szero) <$>
             zip_with (λ x y : Z, bool_decide (x = y)) (data lidx) (data ridx)) |} idx
        = Some (masked x r c)).
      { apply get_Some. exists o. simpl. split; [done |].
        rewrite lookup_zip_with, lookup_bind_singletons, Hr by done. simpl.
        rewrite block_lookup by lia.
        replace (Z.to_nat r * 1 + 0) with (Z.to_nat r) by lia. rewrite Hx. simpl.
        rewrite list_lookup_fmap, lookup_zip_with, Hr, Hc. simpl.
        by rewrite lookup_mask. }
      split; [done |]. rewrite Hres. split.
      * intros Heq Hone. by rewrite (masked_equal x r c Heq), Hone.
      * intros Hne Hzero. by rewrite (masked_differ x r c Hne), Hzero.
  - intros b n d bidx lidx ridx Hsd Hwd Hwb Hwl Hwr Hsb Hsh Hrb Hrl.
    set (blk := λ ij : Z * Z, block 1 (Z.to_nat ij.1 * n + Z.to_nat ij.2) (data d)).
    assert (Hblocks : Forall (λ ij, length (blk ij) = 1) (zip (data bidx) (data lidx))).
    { rewrite list.Forall_forall in Hrb, Hrl. apply list.Forall_forall. intros [i j] Hij.
      apply elem_of_zip_with in Hij as (i' & j' & [= <- <-] & Hi & Hj).
      apply block_length. rewrite Hwd, Hsd. simpl.
      specialize (Hrb i Hi). specialize (Hrl j Hj). nia. }
    unfold _batch_get_indices, eq. rewrite map2_same_shape by done. simpl.
    rewrite (getitem2_matrix _ _ _ b n) by done. simpl. fold blk.
    unfold mul, type_as, map1. simpl.
    rewrite map2_same_shape; simpl; try done.
    2:{ unfold wf. simpl. rewrite (length_bind_blocks _ 1) by done.
        rewrite length_zip_with, Hwb, Hwl, Hsb. lia. }
    2:{ unfold wf. simpl. rewrite length_fmap, length_zip_with, Hwl, Hwr, Hsh. lia. }
    eexists. split; [done |]. simpl. split; [done |]. split.
    { apply map2_wf.
      - rewrite (length_bind_blocks _ 1) by done.
        rewrite length_zip_with, Hwb, Hwl, Hsb. lia.
      - rewrite length_fmap, length_zip_with, Hwl, Hwr, Hsb, Hsh. lia. }
    intros idx p r c (o & Ho & Hp)%get_Some (o1 & Ho1 & Hr)%get_Some
      (o2 & Ho2 & Hc)%get_Some.
    rewrite <- Hsh, <- Hsb, Ho in Ho2. injection Ho2 as <-.
    rewrite <- Hsb, Ho in Ho1. injection Ho1 as <-.
    assert (Hinp : (0 ≤ p < Z.of_nat b)%Z).
    { rewrite list.Forall_forall in Hrb. apply Hrb. by apply list_elem_of_lookup_2 with o. }
    assert (Hinr : (0 ≤ r < Z.of_nat n)%Z).
    { rewrite list.Forall_forall in Hrl. apply Hrl. by apply list_elem_of_lookup_2 with o. }
    destruct (lookup_lt_is_Some_2 (data d) (Z.to_nat p * n + Z.to_nat r)) as [x Hx];
      [rewrite Hwd, Hsd; simpl; nia |].
    exists x. split.
    + apply get_Some. exists (Z.to_nat p * n + Z.to_nat r). split; [|done].
      rewrite Hsd. apply offset_pair; lia.
    + assert (Hres : get {| shape := shape bidx; data := zip_with smul
          (zip (data bidx) (data lidx) ≫= blk)
          ((λ b0 : bool, if b0 then sone else szero) <$>
             zip_with (λ x y : Z, bool_decide (x = y)) (data lidx) (data ridx)) |} idx
        = Some (masked x r c)).
      { apply get_Some. exists o. simpl. split; [done |].
        rewrite lookup_zip_with, lookup_bind_singletons by done.
        rewrite lookup_zip_with, Hp, Hr. simpl. unfold blk. simpl.
        rewrite block_lookup by lia.
        replace ((Z.to_nat p * n + Z.to_nat r) * 1 + 0)
          with (Z.to_nat p * n + Z.to_nat r) by lia.
        rewrite Hx. simpl.
        rewrite list_lookup_fmap, lookup_zip_with, Hr, Hc. simpl.
        by rewrite lookup_mask. }
      split; [done |]. rewrite Hres. split.
      * intros Heq Hone. by rewrite (masked_equal x r c Heq), Hone.
      * intros Hne Hzero. by rewrite (masked_differ x r c Hne), Hzero.
Qed.

End GetIndices.

(** ** Addition, transposition, construction *)

Section Add.
Context {R : Type} `{Scalar R} {X : Type}.
Implicit Types (d : tensor R) (self : DiagLazyTensor R) (other : LazyTensor R X).

(** C3.  The sum of two diagonal lazy tensors with diagonals [d1], [d2] of
    one shape is the diagonal lazy tensor with diagonal [d1 + d2].  For an
    addend of any other kind, [__add__] returns the lazy composite
    [AddedDiagLazyTensor] built from the addend and [self], both untouched:
    nothing is evaluated. *)
Theorem add_keeps_diagonal_or_composes :
  (∀ d1 d2, wf d1 → wf d2 → shape d1 = shape d2 →
     __add__ (X := X) (__init__ d1) (Diagonal (__init__ d2))
     = Ok (Diagonal (__init__ (Tensor (shape d1) (zip_with sadd (data d1) (data d2))))))
  ∧ (∀ self (x : X),
       __add__ self (Foreign x) = Ok (AddedDiagLazyTensor (Foreign x) (Diagonal self)))
  ∧ (∀ self other0 other1,
       __add__ self (AddedDiagLazyTensor other0 other1)
       = Ok (AddedDiagLazyTensor (AddedDiagLazyTensor other0 other1) (Diagonal self))).
Proof.
  split; [|by split].
  intros d1 d2 Hw1 Hw2 Hs. unfold __add__, add. simpl.
  by rewrite map2_same_shape.
Qed.

End Add.

Section Symmetry.
Context {R : Type} `{Scalar R}.

(** C6.  [_t_matmul] returns on every right-hand side what [_matmul]
    returns, a failure included, and the transpose of a diagonal lazy tensor
    is the tensor itself. *)
Theorem t_matmul_is_matmul (self : DiagLazyTensor R) (rhs : tensor R) :
  _t_matmul self rhs = _matmul self rhs ∧ _transpose_nonbatch self = self.
Proof. by split. Qed.

(** C10.  A lazy tensor built from [d] has [d] as its diagonal; its size is
    [(b, n, n)] for [d] of shape [(b, n)] and [(n, n)] for [d] of shape
    [(n)]. *)
Theorem diag_of_init_and_size :
  (∀ d : tensor R, diag (__init__ d) = d)
  ∧ (∀ (b n : nat) (l : list R), _size (__init__ (Tensor [b; n] l)) = Ok [b; n; n])
  ∧ (∀ (n : nat) (l : list R), _size (__init__ (Tensor [n] l)) = Ok [n; n]).
Proof. by repeat split. Qed.

End Symmetry.

(** ** Dense evaluation *)

Lemma lookup_join_blocks {A : Type} (k : nat) (rows : list (list A)) (i c : nat) :
  Forall (λ row, length row = k) rows → c < k →
  mjoin rows !! (i * k + c) = rows !! i ≫= λ row, row !! c.
Proof.
  intros Hrows Hc. revert i; induction Hrows as [|row rows Hrow _ IH]; intros i; [done |].
  destruct i as [|i]; simpl.
  - by rewrite lookup_app_l by lia.
  - rewrite lookup_app_r by lia. rewrite <- IH. f_equal. lia.
Qed.

Section Evaluate.
Context {R : Type} `{Scalar R}.
Implicit Types (d : tensor R) (super_evaluate : DiagLazyTensor R → result (tensor R)).

(** C7.  On an unbatched diagonal [d] of length [n], [evaluate] returns the
    [n] by [n] matrix whose element at [(i, i)] is [d[i]] and whose element
    at [(i, j)], [i ≠ j], is zero.  On a batched diagonal it returns what
    the dense evaluation of the base class returns. *)
Theorem evaluate_dense_or_super :
  (∀ super_evaluate (n : nat) d, shape d = [n] → wf d →
     ∃ res, evaluate super_evaluate (__init__ d) = Ok res
       ∧ shape res = [n; n] ∧ wf res
       ∧ ∀ i j, i < n → j < n →
           ∃ x, get d [i] = Some x
             ∧ get res [i; j] = Some (if decide (i = j) then x else szero))
  ∧ (∀ super_evaluate (b n : nat) d, shape d = [b; n] →
       evaluate super_evaluate (__init__ d) = super_evaluate (__init__ d)).
Proof.
  split.
  - intros super n d Hs Hw. unfold evaluate.
    rewrite (ndimension_unbatched d n) by done. simpl. unfold Torch.diag. rewrite Hs.
    set (row := λ (i : nat) (x : R), <[i:=x]> (replicate n szero)).
    assert (Hrows : Forall (λ r : list R, length r = n) (imap row (data d))).
    { apply list.Forall_forall. intros r (i & Hr)%list_elem_of_lookup_1.
      rewrite list_lookup_imap in Hr. destruct (data d !! i); simplify_eq/=.
      unfold row. by rewrite length_insert, length_replicate. }
    eexists. split; [done |]. simpl. split; [done |]. split.
    { unfold wf. simpl. rewrite length_join.
      rewrite (sum_list_fmap_same n) by done.
      rewrite length_imap, Hw, Hs. simpl. lia. }
    intros i j Hi Hj.
    destruct (lookup_lt_is_Some_2 (data d) i) as [x Hx]; [rewrite Hw, Hs; simpl; lia |].
    exists x. split.
    + apply get_Some. exists i. split; [|done]. rewrite Hs. by apply offset_singleton.
    + apply get_Some. exists (i * n + j). simpl. split; [by apply offset_pair |].
      rewrite (lookup_join_blocks n) by done.
      rewrite list_lookup_imap, Hx. simpl. unfold row.
      rewrite list_lookup_insert, length_replicate, lookup_replicate_2 by done.
      destruct (decide (i = j)); [by rewrite decide_True | by rewrite decide_False by tauto].
  - intros super b n d Hs. unfold evaluate.
    by rewrite (ndimension_batched d b n).
Qed.

End Evaluate.

(** ** Sums along a dimension *)

Section Sum.
Context {R : Type} `{Scalar R}.
Implicit Types (l acc : list R) (rows : list (list R)) (t : tensor R).

Lemma foldl_rows_lookup acc rows (xs : list R) (c : nat) (a : R) :
  acc !! c = Some a → Forall2 (λ row x, row !! c = Some x) rows xs →
  foldl (zip_with sadd) acc rows !! c = Some (foldl sadd a xs).
Proof.
  intros Ha Hrows. revert acc a Ha.
  induction Hrows as [|row x rows xs Hrow _ IH]; intros acc a Ha; simpl; [done |].
  apply IH. by rewrite lookup_zip_with, Ha, Hrow.
Qed.

Lemma sum_rows_lookup (k : nat) rows (xs : list R) (c : nat) :
  c < k → Forall2 (λ row x, row !! c = Some x) rows xs →
  sum_rows k rows !! c = Some (foldl sadd szero xs).
Proof. intros Hc. apply foldl_rows_lookup. by apply lookup_replicate_2. Qed.

(** Where addition commutes and associates, a sum does not depend on the
    order of its terms. *)
Lemma foldl_sadd_Permutation `{!SumLaws R} (a : R) (xs ys : list R) :
  xs ≡ₚ ys → foldl sadd a xs = foldl sadd a ys.
Proof.
  intros Hperm. revert a.
  induction Hperm as [|x xs ys _ IH|x y xs|xs ys zs _ IH1 _ IH2]; intros a; simpl.
  - done.
  - apply IH.
  - f_equal. by rewrite <- !sum_assoc, (sum_comm y x).
  - by rewrite IH1.
Qed.

Lemma sum_rows_length (k : nat) rows :
  Forall (λ row, length row = k) rows → length (sum_rows k rows) = k.
Proof.
  unfold sum_rows. generalize (replicate k szero) (length_replicate k (szero : R)).
  intros acc Hacc Hrows. revert acc Hacc.
  induction Hrows as [|row rows Hrow _ IH]; intros acc Hacc; simpl; [done |].
  apply IH. rewrite length_zip_with. lia.
Qed.

Lemma sum_dim_blocks (outer m inner : nat) l :
  length l = outer * (m * inner) →
  Forall (λ blk, length (sum_rows inner (chunks inner m blk)) = inner)
         (chunks (m * inner) outer l).
Proof.
  intros Hl. eapply list.Forall_impl; [apply chunks_Forall_length; lia |].
  intros blk Hblk. simpl in Hblk. apply sum_rows_length, chunks_Forall_length. lia.
Qed.

Lemma sum_dim_length (outer m inner : nat) l :
  length l = outer * (m * inner) → length (sum_dim outer m inner l) = outer * inner.
Proof.
  intros Hl. unfold sum_dim.
  rewrite (length_bind_blocks _ inner) by by apply sum_dim_blocks.
  by rewrite chunks_length.
Qed.

(** The element at position [(o1, o2)] of the result is the sum over [j] of
    the elements at [(o1, j, o2)]. *)
Lemma sum_dim_lookup (outer m inner : nat) l (o1 o2 : nat) (xs : list R) :
  length l = outer * (m * inner) → o1 < outer → o2 < inner →
  Forall2 (λ j x, l !! ((o1 * m + j) * inner + o2) = Some x) (seq 0 m) xs →
  sum_dim outer m inner l !! (o1 * inner + o2) = Some (foldl sadd szero xs).
Proof.
  intros Hl Ho1 Ho2 Hxs. unfold sum_dim.
  rewrite (lookup_bind_blocks _ inner) by (done || by apply sum_dim_blocks).
  rewrite chunks_lookup by done. simpl.
  apply sum_rows_lookup; [done |].
  apply Forall2_same_length_lookup. split.
  { rewrite chunks_length. apply Forall2_length in Hxs. by rewrite length_seq in Hxs. }
  intros j row x Hrow Hx.
  assert (Hj : j < m).
  { apply lookup_lt_Some in Hrow. by rewrite chunks_length in Hrow. }
  rewrite chunks_lookup in Hrow by done. injection Hrow as <-.
  rewrite block_lookup by done. rewrite block_lookup by nia.
  rewrite Forall2_same_length_lookup in Hxs. destruct Hxs as [_ Hxs].
  rewrite <- (Hxs j j x); [f_equal; lia | by apply lookup_seq_lt | done].
Qed.

(** Summing the last dimension. *)
Lemma sum_last t (s : list nat) (k : nat) :
  shape t = s ++ [k] →
  sum t (-1) = Ok (Tensor s (sum_dim (numel s) k 1 (data t))).
Proof.
  intros Hs. unfold sum, Torch.ndimension. rewrite Hs.
  destruct (s ++ [k]) as [|n s'] eqn:Hsk; [by destruct s |].
  rewrite <- Hsk. rewrite length_app. simpl.
  replace (length s + 1) with (S (length s)) by lia. rewrite wrap_dim_last. simpl.
  rewrite take_app_length, lookup_app_r, Nat.sub_diag by lia. simpl.
  rewrite drop_ge by (rewrite length_app; simpl; lia).
  by rewrite app_nil_r.
Qed.

End Sum.

(** ** The derivative of a quadratic form *)

Section QuadForm.
Context {R : Type} `{Scalar R}.
Implicit Types (self : DiagLazyTensor R) (lv rv : tensor R).

(** C4.  On [left_vecs] and [right_vecs] of one shape,
    [_quad_form_derivative] returns a tuple of one tensor.  When the vectors
    have no more dimensions than the diagonal, it is their elementwise
    product.  When they have more, their shape being [s ++ [k]], the last
    dimension is summed away: the tensor has shape [s], and where addition
    commutes and associates its element at [idx] is the sum of the [k]
    products at [idx ++ [j]], [j < k], added in any order.  For
    [l = [1, 2]] and [r = [3, 4]] the result is [([3, 8],)]. *)
Theorem quad_form_derivative_product_or_row_sums :
  (∀ self lv rv, wf lv → wf rv → shape lv = shape rv →
     Torch.ndimension lv ≤ Torch.ndimension (_diag self) →
     _quad_form_derivative self lv rv
     = Ok [Tensor (shape lv) (zip_with smul (data lv) (data rv))])
  ∧ (∀ self lv rv (s : list nat) (k : nat),
       wf lv → wf rv → shape lv = s ++ [k] → shape rv = s ++ [k] →
       Torch.ndimension (_diag self) < Torch.ndimension lv →
       ∃ res, _quad_form_derivative self lv rv = Ok [res] ∧ shape res = s ∧ wf res
         ∧ (SumLaws R →
            ∀ idx (xs ys : list R), is_Some (offset s idx) →
              Forall2 (λ j x, ∃ a b, get lv (idx ++ [j]) = Some a
                                   ∧ get rv (idx ++ [j]) = Some b ∧ x = smul a b)
                      (seq 0 k) xs →
              xs ≡ₚ ys →
              get res idx = Some (foldl sadd szero ys)))
  ∧ (∀ d : tensor Z, 1 ≤ Torch.ndimension d →
       _quad_form_derivative (__init__ d) (Tensor [2] [1; 2]%Z) (Tensor [2] [3; 4]%Z)
       = Ok [Tensor [2] [3; 8]%Z]).
Proof.
  split; [|split].
  - intros self lv rv Hwl Hwr Hs Hnd. unfold _quad_form_derivative, mul.
    rewrite map2_same_shape by done. simpl.
    rewrite decide_False; [done |]. unfold Torch.ndimension in *. simpl. lia.
  - intros self lv rv s k Hwl Hwr Hsl Hsr Hnd. unfold _quad_form_derivative, mul.
    rewrite map2_same_shape by congruence. simpl.
    rewrite decide_True by done.
    rewrite (sum_last _ s k) by done. simpl.
    assert (Hlen : length (zip_with smul (data lv) (data rv)) = numel s * (k * 1)).
    { rewrite length_zip_with, Hwl, Hwr, Hsl, Hsr, numel_app. simpl. lia. }
    eexists. split; [done |]. simpl. split; [done |]. split.
    { unfold wf. simpl. rewrite sum_dim_length by done. lia. }
    intros Hlaws idx xs ys [o Ho] Hxs Hperm.
    rewrite <- (foldl_sadd_Permutation szero xs ys Hperm).
    apply get_Some. exists o. simpl. split; [done |].
    replace o with (o * 1 + 0) at 1 by lia.
    apply sum_dim_lookup; [done | by eapply offset_lt | lia |].
    eapply Forall2_impl; [|exact Hxs]. simpl.
    intros j x (a & b & (oa & Hoa & Ha)%get_Some & (ob & Hob & Hb)%get_Some & ->).
    rewrite Hsl, (offset_last _ _ _ _ _ Ho) in Hoa.
    rewrite Hsr, (offset_last _ _ _ _ _ Ho) in Hob.
    case_decide; [|done]. simplify_eq.
    replace ((o * k + j) * 1 + 0) with (o * k + j) by lia.
    by rewrite lookup_zip_with, Ha, Hb.
  - intros d Hd. unfold _quad_form_derivative, mul.
    rewrite map2_same_shape by done. simpl.
    rewrite decide_False; [done |]. unfold Torch.ndimension in *. simpl. lia.
Qed.

End QuadForm.

(** ** Views with one inferred size *)

Section View.
Context {A : Type}.
Implicit Types (t : tensor A).

Lemma no_size_below_minus_one (sizes : list Z) :
  Forall (λ z, (-1 ≤ z)%Z) sizes →
  bool_decide (Exists (λ z, (z < -1)%Z) sizes) = false.
Proof.
  intros Hall. apply bool_decide_eq_false_2, Forall_not_Exists.
  eapply list.Forall_impl; [exact Hall |]. simpl. lia.
Qed.

(** [t.view(-1, n)] *)
Lemma view_rows t (n : nat) :
  view t [(-1)%Z; Z.of_nat n]
  = if decide (0 < n ∧ numel (shape t) `mod` n = 0)
    then Ok (Tensor [numel (shape t) `div` n; n] (data t))
    else Err InvalidViewShape.
Proof.
  unfold view.
  rewrite no_size_below_minus_one by (repeat constructor; lia).
  rewrite (filter_cons_False (λ z, z ≠ (-1)%Z) (-1)%Z) by (intros Hne; by apply Hne).
  rewrite (filter_cons_True (λ z, z = (-1)%Z) (-1)%Z) by done.
  rewrite (filter_cons_True (λ z, z ≠ (-1)%Z) (Z.of_nat n)) by lia.
  rewrite (filter_cons_False (λ z, z = (-1)%Z) (Z.of_nat n)) by lia.
  simpl. rewrite Nat2Z.id, Nat.mul_1_r.
  case_decide; [|done]. do 2 f_equal.
  by rewrite decide_False by lia.
Qed.

(** [t.view(-1, g, n)] for a group size that is not negative. *)
Lemma view_groups t (g n : nat) :
  view t [(-1)%Z; Z.of_nat g; Z.of_nat n]
  = if decide (0 < g * n ∧ numel (shape t) `mod` (g * n) = 0)
    then Ok (Tensor [numel (shape t) `div` (g * n); g; n] (data t))
    else Err InvalidViewShape.
Proof.
  unfold view.
  rewrite no_size_below_minus_one by (repeat constructor; lia).
  rewrite (filter_cons_False (λ z, z ≠ (-1)%Z) (-1)%Z) by (intros Hne; by apply Hne).
  rewrite (filter_cons_True (λ z, z = (-1)%Z) (-1)%Z) by done.
  rewrite (filter_cons_True (λ z, z ≠ (-1)%Z) (Z.of_nat g)) by lia.
  rewrite (filter_cons_False (λ z, z = (-1)%Z) (Z.of_nat g)) by lia.
  rewrite (filter_cons_True (λ z, z ≠ (-1)%Z) (Z.of_nat n)) by lia.
  rewrite (filter_cons_False (λ z, z = (-1)%Z) (Z.of_nat n)) by lia.
  simpl. rewrite !Nat2Z.id, Nat.mul_1_r.
  case_decide; [|done]. do 2 f_equal.
  by rewrite !decide_False by lia.
Qed.

(** [t.view(-1, g, n)] for a negative group size: a second inferred size, or
    an invalid one. *)
Lemma view_groups_negative t (g : Z) (n : nat) :
  (g < 0)%Z → view t [(-1)%Z; g; Z.of_nat n] = Err InvalidViewShape.
Proof.
  intros Hg. unfold view. destruct (decide (g = -1)%Z) as [-> | Hne].
  - rewrite no_size_below_minus_one by (repeat constructor; lia).
    rewrite !(filter_cons_True (λ z, z = (-1)%Z) (-1)%Z) by done.
    rewrite !(filter_cons_False (λ z, z = (-1)%Z) (Z.of_nat n)) by lia.
    done.
  - rewrite bool_decide_eq_true_2; [done |].
    apply Exists_cons_tl, Exists_cons_hd. lia.
Qed.

End View.

Lemma get_matrix_Some {A : Type} (t : tensor A) (m n i j : nat) (x : A) :
  shape t = [m; n] → get t [i; j] = Some x → data t !! (i * n + j) = Some x.
Proof.
  intros Hs (o & Ho & Hx)%get_Some. rewrite Hs in Ho. simpl in Ho.
  repeat case_decide; simplify_eq/=.
  by replace (i * n + j) with (i * (n * 1) + (j * 1 + 0)) by lia.
Qed.

(** ** Sums over the batch *)

Section SumBatch.
Context {R : Type} `{Scalar R}.
Implicit Types (d : tensor R).

Lemma size_last_of_matrix d (b n : nat) : shape d = [b; n] → Torch.size d (-1) = Ok n.
Proof. intros Hs. unfold Torch.size, Torch.ndimension. by rewrite Hs. Qed.

(** C5, as the code has it.  For a batched diagonal [d] of shape [(b, n)]
    with [n ≥ 1]: [sum_batch] without a group size returns the diagonal lazy
    tensor whose diagonal has shape [(n)]; with a group size [g ≥ 1] that
    divides [b], the diagonal has shape [(b / g, n)].  Where addition
    commutes and associates, the first holds in column [c] the sum over the
    batch of the entries [d[j, c]], and row [r] of the second holds in
    column [c] the sum over [j < g] of [d[r * g + j, c]], the terms added in
    any order.  For [n = 0] both calls fail: the view cannot infer a size
    from no elements. *)
Theorem sum_batch_sums_groups :
  (∀ (b n : nat) d, shape d = [b; n] → wf d → 0 < n →
     ∃ res, sum_batch (__init__ d) None = Ok (__init__ res)
       ∧ shape res = [n] ∧ wf res
       ∧ (SumLaws R →
          ∀ c (xs ys : list R), c < n →
            Forall2 (λ j x, get d [j; c] = Some x) (seq 0 b) xs →
            xs ≡ₚ ys →
            get res [c] = Some (foldl sadd szero ys)))
  ∧ (∀ (b n g : nat) d, shape d = [b; n] → wf d → 0 < n → 0 < g → (g | b) →
       ∃ res, sum_batch (__init__ d) (Some (Z.of_nat g)) = Ok (__init__ res)
         ∧ shape res = [b `div` g; n] ∧ wf res
         ∧ (SumLaws R →
            ∀ r c (xs ys : list R), r < b `div` g → c < n →
              Forall2 (λ j x, get d [r * g + j; c] = Some x) (seq 0 g) xs →
              xs ≡ₚ ys →
              get res [r; c] = Some (foldl sadd szero ys)))
  ∧ (∀ (b : nat) d (size : option Z), shape d = [b; 0] →
       sum_batch (__init__ d) size = Err InvalidViewShape).
Proof.
  split; [|split].
  - intros b n d Hs Hw Hn. unfold sum_batch. simpl.
    rewrite (size_last_of_matrix d b n) by done. simpl.
    rewrite view_rows, Hs. simpl. rewrite Nat.mul_1_r.
    rewrite decide_True by (split; [done | apply Nat.Div0.mod_mul]).
    rewrite Nat.div_mul by lia. simpl.
    rewrite ?Nat.mul_1_r.
    assert (Hlen : length (data d) = 1 * (b * n)).
    { rewrite Hw, Hs. simpl. lia. }
    eexists. split; [done |]. simpl. split; [done |]. split.
    { unfold wf. simpl. rewrite sum_dim_length by done. lia. }
    intros Hlaws c xs ys Hc Hxs Hperm.
    rewrite <- (foldl_sadd_Permutation szero xs ys Hperm).
    apply get_Some. exists c. simpl.
    split; [by apply offset_singleton |].
    replace c with (0 * n + c) at 1 by lia.
    apply sum_dim_lookup; [done | lia | done |].
    eapply Forall2_impl; [|exact Hxs]. simpl. intros j x Hx.
    by apply (get_matrix_Some d b n).
  - intros b n g d Hs Hw Hn Hg [q ->]. unfold sum_batch. simpl.
    rewrite (size_last_of_matrix d (q * g) n) by done. simpl.
    rewrite view_groups, Hs. simpl. rewrite Nat.mul_1_r.
    replace (q * g * n) with (q * (g * n)) by lia.
    rewrite decide_True by (split; [nia | apply Nat.Div0.mod_mul]).
    rewrite !Nat.div_mul by nia. simpl.
    rewrite ?Nat.mul_1_r.
    assert (Hlen : length (data d) = q * (g * n)).
    { rewrite Hw, Hs. simpl. lia. }
    eexists. split; [done |]. simpl. split; [done |]. split.
    { unfold wf. simpl. rewrite sum_dim_length by done. lia. }
    intros Hlaws r c xs ys Hr Hc Hxs Hperm.
    rewrite <- (foldl_sadd_Permutation szero xs ys Hperm).
    apply get_Some. exists (r * n + c). simpl.
    split; [by apply offset_pair |].
    apply sum_dim_lookup; [done | done | done |].
    eapply Forall2_impl; [|exact Hxs]. simpl. intros j x Hx.
    by apply (get_matrix_Some d (q * g) n).
  - intros b d size Hs. unfold sum_batch. simpl.
    rewrite (size_last_of_matrix d b 0) by done. simpl.
    destruct size as [g|].
    + destruct (decide (g < 0)%Z) as [Hneg | Hpos].
      * by rewrite (view_groups_negative _ g 0).
      * rewrite <- (Z2Nat.id g) by lia.
        rewrite (view_groups _ (Z.to_nat g) 0). by rewrite decide_False by lia.
    + rewrite (view_rows _ 0). by rewrite decide_False by lia.
Qed.

(** C9.  On a batched diagonal of shape [(b, n)], [sum_batch] with a group
    size that does not divide [b] fails: the view that regroups the batch is
    refused, and no lazy tensor is returned. *)
Theorem sum_batch_rejects_uneven_groups (b n : nat) (g : Z) d :
  shape d = [b; n] → ¬ (g | Z.of_nat b)%Z →
  sum_batch (__init__ d) (Some g) = Err InvalidViewShape.
Proof.
  intros Hs Hdiv. unfold sum_batch. simpl.
  rewrite (size_last_of_matrix d b n) by done. simpl.
  destruct (decide (g < 0)%Z) as [Hneg | Hpos].
  - by rewrite view_groups_negative.
  - rewrite <- (Z2Nat.id g) by lia. rewrite view_groups, Hs. simpl.
    rewrite decide_False; [done |]. intros [Hgn Hmod]. apply Hdiv.
    apply Nat.Div0.mod_divides in Hmod as [q Hq].
    assert (Hb : b = q * Z.to_nat g) by nia.
    exists (Z.of_nat q). rewrite Hb, Nat2Z.inj_mul, Z2Nat.id by lia. done.
Qed.

End SumBatch.

(** ** Sampling *)

Lemma broadcast_shapes_lead (s : list nat) (n : nat) :
  broadcast_shapes (1 :: s) (n :: s) = Ok (n :: s).
Proof.
  unfold broadcast_shapes.
  change (length (1 :: s)) with (length (n :: s)). rewrite Nat.max_id.
  change (left_pad (length (n :: s)) (1 :: s)) with (left_pad (length (1 :: s)) (1 :: s)).
  rewrite !left_pad_fit. simpl. rewrite broadcast_dims_refl. simpl.
  case_decide; [by subst | done].
Qed.

(** An elementwise operation whose left operand has a leading dimension of
    size 1: the left storage is repeated along that dimension. *)
Lemma map2_lead {A B C : Type} (f : A → B → C) (a : tensor A) (b : tensor B)
    (s : list nat) (n : nat) :
  shape a = 1 :: s → shape b = n :: s → wf a → wf b →
  map2 f a b = Ok (Tensor (n :: s) (zip_with f (mjoin (replicate n (data a))) (data b))).
Proof.
  intros Ha Hb Hwa Hwb. unfold map2. rewrite Ha, Hb, broadcast_shapes_lead. simpl.
  destruct a as [sa la], b as [sb lb]. simpl in *. subst sa sb.
  rewrite expand_lead by (unfold wf in Hwa; simpl in Hwa; lia). simpl.
  pose proof (expand_refl (Tensor (n :: s) lb) Hwb) as Hid. simpl in Hid.
  by rewrite Hid.
Qed.

Lemma randn_sizes {R : Type} (gen : nat → R) (sizes : list nat) :
  randn gen (Z.of_nat <$> sizes) = Ok (Tensor sizes (gen <$> seq 0 (numel sizes))).
Proof.
  unfold randn. rewrite bool_decide_eq_false_2.
  - replace (Z.to_nat <$> (Z.of_nat <$> sizes)) with sizes; [done |].
    induction sizes as [|n sizes IH]; [done |].
    rewrite !fmap_cons, Nat2Z.id. by f_equal.
  - apply Forall_not_Exists, list.Forall_forall.
    intros z (k & -> & _)%list_elem_of_fmap. simpl. lia.
Qed.

Section Sampling.
Context {R : Type} `{Scalar R} `{Sqrt R}.
Implicit Types (d : tensor R) (gen : nat → R).

(** What [zero_mean_mvn_samples] computes once the draw has the shape of the
    diagonal with a leading sample dimension. *)
Lemma scaled_draw d gen (num : nat) :
  wf d →
  mul (sqrt (Tensor (1 :: shape d) (data d)))
      (Tensor (num :: shape d) (gen <$> seq 0 (numel (num :: shape d))))
  = Ok (Tensor (num :: shape d)
          (zip_with smul (mjoin (replicate num (ssqrt <$> data d)))
                    (gen <$> seq 0 (numel (num :: shape d))))).
Proof.
  intros Hw. unfold mul, sqrt, map1. simpl.
  rewrite (map2_lead _ _ _ (shape d) num); try done.
  - unfold wf. simpl. rewrite length_fmap, Hw. lia.
  - unfold wf. simpl. by rewrite length_fmap, length_seq.
Qed.

(** C8, as the code has it.  [zero_mean_mvn_samples] has no domain check.
    For every diagonal [d] of shape [(n)] or [(b, n)], negative entries or
    not, and every number [num] of samples it returns a tensor of shape
    [num :: shape d]: sample [s] holds at [idx] the square root of [d[idx]]
    times the standard normal draw for that position. *)
Theorem zero_mean_mvn_samples_returns_scaled_draws gen (num : nat) d :
  wf d → (∃ n : nat, shape d = [n]) ∨ (∃ b n : nat, shape d = [b; n]) →
  ∃ res, zero_mean_mvn_samples gen (__init__ d) (Z.of_nat num) = Ok res
    ∧ shape res = num :: shape d ∧ wf res
    ∧ ∀ s idx o x, s < num → offset (shape d) idx = Some o → data d !! o = Some x →
        get res (s :: idx)
        = Some (smul (ssqrt x) (gen (s * numel (shape d) + o))).
Proof.
  intros Hw Hshape.
  assert (Hrun : zero_mean_mvn_samples gen (__init__ d) (Z.of_nat num)
                 = mul (sqrt (Tensor (1 :: shape d) (data d)))
                       (Tensor (num :: shape d)
                               (gen <$> seq 0 (numel (num :: shape d))))).
  { unfold zero_mean_mvn_samples.
    destruct Hshape as [[n Hs] | (b & n & Hs)].
    - rewrite (ndimension_unbatched d n) by done. simpl.
      unfold Torch.size, Torch.ndimension. rewrite !Hs. simpl.
      pose proof (randn_sizes gen [num; n]) as Hdraw.
      change (Z.of_nat <$> [num; n]) with [Z.of_nat num; Z.of_nat n] in Hdraw.
      rewrite Hdraw. simpl. done.
    - rewrite (ndimension_batched d b n) by done. simpl.
      unfold Torch.size, Torch.ndimension. rewrite !Hs. simpl.
      pose proof (randn_sizes gen [num; b; n]) as Hdraw.
      change (Z.of_nat <$> [num; b; n])
        with [Z.of_nat num; Z.of_nat b; Z.of_nat n] in Hdraw.
      rewrite Hdraw. simpl. done. }
  rewrite Hrun, scaled_draw by done.
  eexists. split; [done |]. simpl. split; [done |]. split.
  { apply map2_wf.
    - rewrite length_join_replicate, length_fmap, Hw. done.
    - by rewrite length_fmap, length_seq. }
  intros s idx o x Hs Ho Hx. apply get_Some. simpl. rewrite decide_True by done.
  rewrite Ho. simpl. eexists. split; [done |].
  pose proof (offset_lt _ _ _ Ho) as Hlt.
  rewrite lookup_zip_with.
  replace (s * numel (shape d) + o) with (s * length (ssqrt <$> data d) + o) at 1
    by (by rewrite length_fmap, Hw).
  rewrite lookup_join_replicate by (rewrite ?length_fmap, ?Hw; done).
  rewrite (list_lookup_fmap ssqrt), Hx. simpl.
  rewrite (list_lookup_fmap gen), lookup_seq_lt by nia. done.
Qed.

End Sampling.

(** ** The properties at concrete tensors *)

Section Concrete.
Import Examples.

Lemma matmul_scales_rows_witness :
  _matmul d23 (vec [5; 7]%Z) = Ok (vec [10; 21]%Z)
  ∧ _matmul d23 (Tensor [2; 1] [5; 7]%Z) = Ok (Tensor [2; 1] [10; 21]%Z)
  ∧ (∃ res, _matmul d23 (Tensor [2; 2] [1; 2; 3; 4]%Z) = Ok res
       ∧ get res [1; 0] = Some 9%Z)
  ∧ (∃ res, _matmul d23 (Tensor [1; 2; 2] [1; 2; 3; 4]%Z) = Ok res
       ∧ get res [0; 1; 1] = Some 12%Z)
  ∧ _matmul (__init__ d1234) (Tensor [2; 3] [1; 2; 3; 4; 5; 6]%Z) = Err ExpandMismatch.
Proof.
  destruct (matmul_scales_rows (R := Z)) as (Hvec & Helse & Hrows & Hbatch & Hfewer).
  split; [|split; [|split; [|split]]].
  - exact (Hvec 2 (vec [2; 3]%Z) (vec [5; 7]%Z) eq_refl eq_refl eq_refl eq_refl).
  - assert (Hrank : Torch.ndimension (Tensor [2; 1] [5; 7]%Z) ≠ 1) by (cbv; lia).
    exact (Helse (vec [2; 3]%Z) (Tensor [2; 1] [5; 7]%Z) eq_refl eq_refl
             (or_introl Hrank)).
  - destruct (Hrows (vec [2; 3]%Z) (Tensor [2; 2] [1; 2; 3; 4]%Z) 2
                ltac:(discriminate) eq_refl eq_refl eq_refl)
      as (res & Hres & _ & _ & Hget).
    exists res. split; [exact Hres |].
    exact (Hget [1] 0 3%Z 3%Z eq_refl eq_refl).
  - destruct (Hbatch (vec [2; 3]%Z) (Tensor [1; 2; 2] [1; 2; 3; 4]%Z) 1 2 2
                eq_refl eq_refl eq_refl eq_refl)
      as (res & Hres & _ & _ & Hget).
    exists res. split; [exact Hres |].
    exact (Hget 0 1 1 3%Z 4%Z eq_refl eq_refl).
  - assert (Hrank : Torch.ndimension (Tensor [2; 3] [1; 2; 3; 4; 5; 6]%Z) < 3)
      by (cbv; lia).
    exact (Hfewer d1234 (Tensor [2; 3] [1; 2; 3; 4; 5; 6]%Z) 2 2 eq_refl Hrank).
Defined.

(** A batch of two 2 x 2 diagonal matrices and a plain vector of length 2,
    then a single 2 x 2 matrix: no product comes back, the expansion of the
    diagonal to the right-hand side is refused. *)
Lemma matmul_of_batched_diagonal_and_vector :
  _matmul (__init__ (Tensor [2; 2] [1; 2; 3; 4]%Z)) (Tensor [2] [5; 7]%Z)
  = Err ExpandMismatch
  ∧ _matmul (__init__ (Tensor [2; 2] [1; 2; 3; 4]%Z)) (Tensor [2; 2] [5; 6; 7; 8]%Z)
    = Err ExpandMismatch.
Proof. split; reflexivity. Qed.

Lemma get_indices_masks_diagonal_witness :
  (∃ res, _get_indices d23 (vec [0; 1]%Z) (vec [0; 0]%Z) = Ok res
     ∧ get res [0] = Some 2%Z ∧ get res [1] = Some 0%Z)
  ∧ (∃ res, _batch_get_indices (__init__ (Tensor [2; 2] [1; 2; 3; 4]%Z))
              (vec [1; 1]%Z) (vec [0; 1]%Z) (vec [0; 0]%Z) = Ok res
       ∧ get res [0] = Some 3%Z ∧ get res [1] = Some 0%Z)
  ∧ (∃ res, _get_indices (__init__ (vec [infinity; 1%float])) (vec [0; 0]%Z) (vec [0; 1]%Z)
            = Ok res
       ∧ get res [0] = Some infinity ∧ get res [1] = Some nan).
Proof.
  split; [|split].
  - destruct (proj1 (get_indices_masks_diagonal (R := Z))
                2 (vec [2; 3]%Z) (vec [0; 1]%Z) (vec [0; 0]%Z)
                eq_refl eq_refl eq_refl eq_refl eq_refl)
      as (res & Hres & _ & _ & Hget); [repeat constructor; lia |].
    exists res. split; [exact Hres |]. split.
    + destruct (Hget [0] 0%Z 0%Z eq_refl eq_refl) as (x & Hx & _ & Hon & _).
      injection Hx as <-. exact (Hon eq_refl eq_refl).
    + destruct (Hget [1] 1%Z 0%Z eq_refl eq_refl) as (x & Hx & _ & _ & Hoff).
      injection Hx as <-. exact (Hoff ltac:(lia) eq_refl).
  - destruct (proj2 (get_indices_masks_diagonal (R := Z))
                2 2 (Tensor [2; 2] [1; 2; 3; 4]%Z)
                (vec [1; 1]%Z) (vec [0; 1]%Z) (vec [0; 0]%Z)
                eq_refl eq_refl eq_refl eq_refl eq_refl eq_refl eq_refl)
      as (res & Hres & _ & _ & Hget); [repeat constructor; lia ..|].
    exists res. split; [exact Hres |]. split.
    + destruct (Hget [0] 1%Z 0%Z 0%Z eq_refl eq_refl eq_refl) as (x & Hx & _ & Hon & _).
      injection Hx as <-. exact (Hon eq_refl eq_refl).
    + destruct (Hget [1] 1%Z 1%Z 0%Z eq_refl eq_refl eq_refl) as (x & Hx & _ & _ & Hoff).
      injection Hx as <-. exact (Hoff ltac:(lia) eq_refl).
  - destruct (proj1 (get_indices_masks_diagonal (R := float))
                2 (vec [infinity; 1%float]) (vec [0; 0]%Z) (vec [0; 1]%Z)
                eq_refl eq_refl eq_refl eq_refl eq_refl)
      as (res & Hres & _ & _ & Hget); [repeat constructor; lia |].
    exists res. split; [exact Hres |]. split.
    + destruct (Hget [0] 0%Z 0%Z eq_refl eq_refl) as (x & Hx & _ & Hon & _).
      injection Hx as <-. exact (Hon eq_refl eq_refl).
    + destruct (Hget [1] 0%Z 1%Z eq_refl eq_refl) as (x & Hx & Hmask & _).
      injection Hx as <-. exact Hmask.
Defined.

(** A diagonal of length 2 whose first entry is infinite, read at row 0 and
    column 1, both within [[0, 2)]: the indices differ, and the product with
    the mask is not zero but NaN. *)
Lemma get_indices_of_infinite_entry :
  _get_indices (__init__ (vec [infinity; 1%float])) (vec [0%Z]) (vec [1%Z])
  = Ok (vec [nan])
  ∧ PrimFloat.eqb nan szero = false
  ∧ nan ≠ (szero : float).
Proof.
  split; [reflexivity |]. split; [reflexivity |].
  intros Heq. apply (f_equal (λ x, PrimFloat.eqb x 0)) in Heq. discriminate Heq.
Qed.

Lemma add_keeps_diagonal_or_composes_witness :
  __add__ (X := unit) (__init__ (vec [1; 2]%Z)) (Diagonal (__init__ (vec [10; 20]%Z)))
  = Ok (Diagonal (__init__ (vec [11; 22]%Z))).
Proof.
  exact (proj1 (add_keeps_diagonal_or_composes (R := Z) (X := unit))
           (vec [1; 2]%Z) (vec [10; 20]%Z) eq_refl eq_refl eq_refl).
Defined.

Lemma quad_form_derivative_product_or_row_sums_witness :
  _quad_form_derivative d23 (vec [1; 2]%Z) (vec [3; 4]%Z) = Ok [vec [3; 8]%Z]
  ∧ (∃ res, _quad_form_derivative d23 (Tensor [2; 2] [1; 2; 3; 4]%Z)
              (Tensor [2; 2] [1; 1; 1; 1]%Z) = Ok [res]
       ∧ shape res = [2] ∧ get res [1] = Some 7%Z).
Proof.
  destruct (quad_form_derivative_product_or_row_sums (R := Z)) as (Hprod & Hsum & Hex).
  split.
  - assert (Hrank : 1 ≤ Torch.ndimension (vec [2; 3]%Z)) by (cbv; lia).
    exact (Hex (vec [2; 3]%Z) Hrank).
  - assert (Hrank : Torch.ndimension (_diag d23)
                    < Torch.ndimension (Tensor [2; 2] [1; 2; 3; 4]%Z)) by (cbv; lia).
    destruct (Hsum d23 (Tensor [2; 2] [1; 2; 3; 4]%Z) (Tensor [2; 2] [1; 1; 1; 1]%Z)
                [2] 2 eq_refl eq_refl eq_refl eq_refl Hrank)
      as (res & Hres & Hshape & _ & Hget).
    exists res. split; [exact Hres |]. split; [exact Hshape |].
    apply (Hget Z_sum [1] [3; 4]%Z [4; 3]%Z); [by eexists | | apply perm_swap].
    repeat constructor.
    + by exists 3%Z, 1%Z.
    + by exists 4%Z, 1%Z.
Defined.

Lemma sum_batch_sums_groups_witness :
  (∃ res, sum_batch (__init__ (Tensor [2; 2] [1; 2; 3; 4]%Z)) None = Ok (__init__ res)
     ∧ shape res = [2] ∧ get res [1] = Some 6%Z)
  ∧ (∃ res, sum_batch (__init__ (Tensor [4; 2] [1; 2; 3; 4; 5; 6; 7; 8]%Z)) (Some 2%Z)
            = Ok (__init__ res)
       ∧ shape res = [2; 2] ∧ get res [1; 0] = Some 12%Z)
  ∧ sum_batch (__init__ (Tensor [3; 0] ([] : list Z))) (Some 3%Z) = Err InvalidViewShape.
Proof.
  destruct (sum_batch_sums_groups (R := Z)) as (Hall & Hgroups & Hempty).
  split; [|split; [|exact (Hempty 3 (Tensor [3; 0] []) (Some 3%Z) eq_refl)]].
  - destruct (Hall 2 2 (Tensor [2; 2] [1; 2; 3; 4]%Z) eq_refl eq_refl ltac:(lia))
      as (res & Hres & Hshape & _ & Hget).
    exists res. split; [exact Hres |]. split; [exact Hshape |].
    apply (Hget Z_sum 1 [2; 4]%Z [4; 2]%Z); [lia | by repeat constructor | apply perm_swap].
  - destruct (Hgroups 4 2 2 (Tensor [4; 2] [1; 2; 3; 4; 5; 6; 7; 8]%Z)
                eq_refl eq_refl ltac:(lia) ltac:(lia) (ex_intro _ 2 eq_refl))
      as (res & Hres & Hshape & _ & Hget).
    exists res. split; [exact Hres |]. split; [exact Hshape |].
    apply (Hget Z_sum 1 0 [5; 7]%Z [7; 5]%Z);
      [simpl; lia | lia | by repeat constructor | apply perm_swap].
Defined.

(** A batch of two empty diagonals: the view cannot infer the batch size
    from no elements, with or without a group size. *)
Lemma sum_batch_of_empty_diagonals :
  sum_batch (__init__ (Tensor [2; 0] ([] : list Z))) None = Err InvalidViewShape
  ∧ sum_batch (__init__ (Tensor [2; 0] ([] : list Z))) (Some 1%Z) = Err InvalidViewShape.
Proof. split; reflexivity. Qed.

Lemma evaluate_dense_or_super_witness :
  (∃ res, evaluate (λ _, Err NotVectorOrMatrix) d23 = Ok res
     ∧ get res [0; 1] = Some 0%Z ∧ get res [1; 1] = Some 3%Z)
  ∧ evaluate (λ _, Err NotVectorOrMatrix) (__init__ (Tensor [1; 2] [2; 3]%Z))
    = Err NotVectorOrMatrix.
Proof.
  destruct (evaluate_dense_or_super (R := Z)) as [Hdense Hsuper]. split.
  - destruct (Hdense (λ _, Err NotVectorOrMatrix) 2 (vec [2; 3]%Z) eq_refl eq_refl)
      as (res & Hres & _ & _ & Hget).
    exists res. split; [exact Hres |]. split.
    + destruct (Hget 0 1 ltac:(lia) ltac:(lia)) as (x & _ & Hx). exact Hx.
    + destruct (Hget 1 1 ltac:(lia) ltac:(lia)) as (x & Hd & Hx).
      injection Hd as <-. exact Hx.
  - exact (Hsuper (λ _, Err NotVectorOrMatrix) 1 2 (Tensor [1; 2] [2; 3]%Z) eq_refl).
Defined.

Lemma zero_mean_mvn_samples_returns_scaled_draws_witness :
  ∃ res, zero_mean_mvn_samples (λ _, 1%float) (__init__ (vec [4%float; (-1)%float])) 1
         = Ok res
    ∧ shape res = [1; 2]
    ∧ get res [0; 0] = Some 2%float ∧ get res [0; 1] = Some nan.
Proof.
  destruct (zero_mean_mvn_samples_returns_scaled_draws (R := float) (λ _, 1%float) 1
              (vec [4%float; (-1)%float]) eq_refl (or_introl (ex_intro _ 2 eq_refl)))
    as (res & Hres & Hshape & _ & Hget).
  exists res. split; [exact Hres |]. split; [exact Hshape |]. split.
  - exact (Hget 0 [0] 0 4%float ltac:(lia) eq_refl eq_refl).
  - exact (Hget 0 [1] 1 (-1)%float ltac:(lia) eq_refl eq_refl).
Defined.

(** A diagonal with the negative entry -1: the samples come back, with NaN
    in them, and no failure is signalled. *)
Lemma zero_mean_mvn_samples_of_negative_entry :
  PrimFloat.ltb (-1) 0 = true
  ∧ zero_mean_mvn_samples (λ _, 1%float) (__init__ (vec [(-1)%float])) 1
    = Ok (Tensor [1; 1] [nan])
  ∧ ∀ e, zero_mean_mvn_samples (λ _, 1%float) (__init__ (vec [(-1)%float])) 1 ≠ Err e.
Proof. split; [reflexivity |]. split; [reflexivity |]. intros e. discriminate. Qed.

Lemma sum_batch_rejects_uneven_groups_witness :
  sum_batch (__init__ (Tensor [3; 2] [1; 2; 3; 4; 5; 6]%Z)) (Some 2%Z)
  = Err InvalidViewShape.
Proof.
  apply (sum_batch_rejects_uneven_groups (R := Z) 3 2 2%Z); [reflexivity |].
  intros [q Hq]. lia.
Defined.

End Concrete.

(** ** Broadcasting, element by element *)

Section Broadcast.
Context {A : Type}.
Implicit Types (l : list A) (t : tensor A).

(** The clamped index of [broadcast_index], for shapes of one rank. *)
Lemma expand_data_lookup (src tgt : list nat) l (idx : list nat) (o : nat) :
  expandable src tgt = true → length l = numel src → offset tgt idx = Some o →
  ∃ o', offset src (zip_with (λ n i, if decide (n = 1) then 0 else i) src idx) = Some o'
        ∧ expand_data src tgt l !! o = l !! o'.
Proof.
  revert tgt l idx o.
  induction src as [|s src IH]; intros [|t tgt] l [|i idx] o Hex Hl Ho;
    simpl in Hex, Hl, Ho; try done.
  - injection Ho as <-. by exists 0.
  - apply andb_true_iff in Hex as [Hst Hex].
    case_decide as Hi; [|done].
    destruct (offset tgt idx) as [o_r|] eqn:Hor; [|done]. injection Ho as <-.
    assert (Hblocks : ∀ l', length l' = numel src →
              length (expand_data src tgt l') = numel tgt)
      by (intros; by apply expand_data_length).
    pose proof (offset_lt _ _ _ Hor) as Hor_lt.
    cbn [zip_with expand_data].
    destruct (decide (s = t)) as [-> | Hne].
    + destruct (IH tgt (block (numel src) i l) idx o_r Hex) as (o' & Ho' & Hlook);
        [apply block_length; nia | done |].
      pose proof (offset_lt _ _ _ Ho') as Ho'_lt.
      exists (i * numel src + o'). split.
      * simpl. rewrite Ho'. simpl.
        destruct (decide (t = 1)) as [-> | Hn1].
        -- assert (i = 0) as -> by lia. by rewrite decide_True by lia.
        -- by rewrite decide_True by done.
      * rewrite (lookup_bind_blocks _ (numel tgt)); [| |done].
        -- rewrite chunks_lookup by done. simpl. rewrite Hlook.
           by apply block_lookup.
        -- eapply list.Forall_impl; [apply (chunks_Forall_length (numel src) t l); lia |].
           intros blk Hblk. simpl in Hblk. by apply Hblocks.
    + apply orb_true_iff in Hst as [Hst | Hst]; apply bool_decide_eq_true_1 in Hst; [done |].
      subst s. destruct (IH tgt l idx o_r Hex) as (o' & Ho' & Hlook); [lia | done |].
      exists o'. split.
      * simpl. rewrite Ho'. done.
      * rewrite <- Hlook. rewrite <- (Hblocks l) at 1 by lia.
        apply lookup_join_replicate; [done | rewrite Hblocks by lia; done].
Qed.

Lemma offset_length (s idx : list nat) (o : nat) : offset s idx = Some o → length idx = length s.
Proof.
  revert idx o; induction s as [|n s IH]; intros [|i idx] o; simpl; try done.
  case_decide; [|done]. destruct (offset s idx) as [o'|] eqn:Ho; [|done].
  intros _. f_equal. by eapply IH.
Qed.

(** Leading dimensions of size 1 do not move the offset. *)
Lemma offset_leading_ones (k : nat) (s idx : list nat) :
  offset (replicate k 1 ++ s) (replicate k 0 ++ idx) = offset s idx.
Proof.
  induction k as [|k IH]; simpl; [done |]. rewrite IH.
  by destruct (offset s idx).
Qed.

Lemma clamp_leading_ones (k : nat) (s idx : list nat) :
  k ≤ length idx →
  zip_with (λ n i, if decide (n = 1) then 0 else i) (replicate k 1 ++ s) idx
  = replicate k 0 ++ zip_with (λ n i, if decide (n = 1) then 0 else i) s (drop k idx).
Proof.
  revert idx; induction k as [|k IH]; intros idx Hk; simpl; [by rewrite drop_0 |].
  destruct idx as [|i idx]; simpl in *; [lia |]. f_equal. apply IH. lia.
Qed.

(** An element of an expanded tensor is the element of the source at the
    broadcast index. *)
Lemma expand_get t (sizes : list nat) (e : tensor A) (idx : list nat) :
  wf t → expand t sizes = Ok e → is_Some (offset sizes idx) →
  get e idx = get t (broadcast_index (shape t) idx) ∧ is_Some (get e idx).
Proof.
  intros Hw He [o Ho]. unfold expand in He. case_decide as Hrank; [|done].
  destruct (expandable _ sizes) eqn:Hex; [|done]. injection He as <-.
  unfold Torch.ndimension in Hrank.
  assert (Hlen : length (data t) = numel (left_pad (length sizes) (shape t))).
  { unfold left_pad. rewrite numel_app, Hw.
    generalize (length sizes - length (shape t)). intros k.
    induction k as [|k IHk]; simpl; lia. }
  destruct (expand_data_lookup _ _ _ _ _ Hex Hlen Ho) as (o' & Ho' & Hlook).
  pose proof (offset_length _ _ _ Ho) as Hidx.
  unfold left_pad in Ho'. rewrite clamp_leading_ones, offset_leading_ones in Ho' by lia.
  unfold get, broadcast_index. simpl. rewrite Ho, Hidx, Ho'. simpl.
  split; [done |]. rewrite Hlook. apply lookup_lt_is_Some.
  apply offset_lt in Ho'. by rewrite Hw.
Qed.

End Broadcast.

Lemma broadcast_dims_expandable (s1 s2 s : list nat) :
  broadcast_dims s1 s2 = Ok s → expandable s1 s = true ∧ expandable s2 s = true.
Proof.
  revert s2 s; induction s1 as [|a s1 IH]; intros [|b s2] s; simpl; try done.
  - by intros [= <-].
  - destruct (broadcast_dims s1 s2) as [rest|] eqn:Hrest; simpl; [|done].
    destruct (IH _ _ Hrest) as [H1 H2].
    destruct (decide (a = b)) as [-> | Hab].
    { intros [= <-]. simpl. by rewrite H1, H2, bool_decide_eq_true_2. }
    destruct (decide (a = 1)) as [-> | Ha].
    { intros [= <-]. simpl.
      by rewrite H1, H2, (bool_decide_eq_true_2 (b = b)), orb_true_r. }
    destruct (decide (b = 1)) as [-> | Hb]; [|done].
    intros [= <-]. simpl.
    by rewrite H1, H2, (bool_decide_eq_true_2 (a = a)), orb_true_r.
Qed.

Lemma broadcast_dims_length (s1 s2 s : list nat) :
  broadcast_dims s1 s2 = Ok s → length s = length s1 ∧ length s = length s2.
Proof.
  revert s2 s; induction s1 as [|a s1 IH]; intros [|b s2] s; simpl; try done.
  - by intros [= <-].
  - destruct (broadcast_dims s1 s2) as [rest|] eqn:Hrest; simpl; [|done].
    destruct (IH _ _ Hrest) as [H1 H2].
    destruct (decide (a = b)); [intros [= <-]; simpl; lia |].
    destruct (decide (a = 1)); [intros [= <-]; simpl; lia |].
    destruct (decide (b = 1)); [intros [= <-]; simpl; lia | done].
Qed.

(** Once the shapes broadcast, both operands expand to the common shape. *)
Lemma broadcast_shapes_expand {A : Type} (t : tensor A) (s1 s2 s : list nat) :
  broadcast_shapes s1 s2 = Ok s → shape t = s1 ∨ shape t = s2 →
  ∃ e, expand t s = Ok e ∧ shape e = s.
Proof.
  unfold broadcast_shapes. intros Hs Ht.
  destruct (broadcast_dims_expandable _ _ _ Hs) as [H1 H2].
  destruct (broadcast_dims_length _ _ _ Hs) as [L1 L2].
  unfold left_pad in L1, L2. rewrite length_app, length_replicate in L1, L2.
  unfold expand, Torch.ndimension.
  assert (Hlen : length s = length s1 `max` length s2) by lia.
  rewrite Hlen. destruct Ht as [-> | ->].
  - rewrite decide_True by lia. rewrite H1. by eexists.
  - rewrite decide_True by lia. rewrite H2. by eexists.
Qed.

(** Elementwise operations, element by element: the result has the
    broadcast shape, and its element at an index of that shape combines the
    operands' elements at the broadcast indices. *)
Lemma map2_get {A B C : Type} (f : A → B → C) (a : tensor A) (b : tensor B)
    (res : tensor C) :
  wf a → wf b → map2 f a b = Ok res →
  broadcast_shapes (shape a) (shape b) = Ok (shape res) ∧ wf res
  ∧ ∀ idx, is_Some (offset (shape res) idx) →
      ∃ x y, get a (broadcast_index (shape a) idx) = Some x
           ∧ get b (broadcast_index (shape b) idx) = Some y
           ∧ get res idx = Some (f x y).
Proof.
  intros Ha Hb. unfold map2.
  destruct (broadcast_shapes (shape a) (shape b)) as [s|] eqn:Hs; simpl; [|done].
  destruct (expand a s) as [ea|] eqn:Hea; simpl; [|done].
  destruct (expand b s) as [eb|] eqn:Heb; simpl; [|done].
  intros [= <-]. simpl. split; [done |].
  destruct (expand_Ok _ _ _ Ha Hea) as [Hsa Hwa].
  destruct (expand_Ok _ _ _ Hb Heb) as [Hsb Hwb].
  split.
  { apply map2_wf; [by rewrite Hwa, Hsa | by rewrite Hwb, Hsb]. }
  intros idx [o Ho].
  destruct (expand_get _ _ _ idx Ha Hea) as [Hga [x Hx]]; [by exists o |].
  destruct (expand_get _ _ _ idx Hb Heb) as [Hgb [y Hy]]; [by exists o |].
  exists x, y. rewrite <- Hga, <- Hgb. split; [done |]. split; [done |].
  apply get_Some in Hx as (ox & Hox & Hx). apply get_Some in Hy as (oy & Hoy & Hy).
  rewrite Hsa, Ho in Hox. rewrite Hsb, Ho in Hoy. simplify_eq.
  apply get_Some. exists ox. simpl. split; [done |].
  by rewrite lookup_zip_with, Hx, Hy.
Qed.

Lemma map2_defined {A B C : Type} (f : A → B → C) (a : tensor A) (b : tensor B)
    (s : list nat) :
  broadcast_shapes (shape a) (shape b) = Ok s →
  ∃ res, map2 f a b = Ok res ∧ shape res = s.
Proof.
  intros Hs. unfold map2. rewrite Hs. simpl.
  destruct (broadcast_shapes_expand a _ _ _ Hs (or_introl eq_refl)) as (ea & -> & _).
  destruct (broadcast_shapes_expand b _ _ _ Hs (or_intror eq_refl)) as (eb & -> & _).
  simpl. by eexists.
Qed.

Lemma map2_undefined {A B C : Type} (f : A → B → C) (a : tensor A) (b : tensor B)
    (err : error) :
  broadcast_shapes (shape a) (shape b) = Err err → map2 f a b = Err err.
Proof. intros Hs. unfold map2. by rewrite Hs. Qed.

Lemma broadcast_shapes_vectors_mismatch (n m : nat) :
  n ≠ m → n ≠ 1 → m ≠ 1 → broadcast_shapes [n] [m] = Err BroadcastMismatch.
Proof.
  intros Hnm Hn Hm. unfold broadcast_shapes, left_pad. simpl.
  by rewrite !decide_False.
Qed.

(** ** Adding to the diagonal *)

Section AddDiag.
Context {R : Type} `{Scalar R}.
Implicit Types (d a : tensor R).

(** X1.  [add_diag] fails exactly when [added_diag] cannot be expanded to the
    shape of the diagonal.  Otherwise it returns the diagonal lazy tensor
    whose diagonal has the shape of [d] and holds at each index the entry of
    [d] plus the entry of [added_diag] that broadcasting pairs with it. *)
Theorem add_diag_adds_expanded d a :
  wf d → wf a →
  match expand_as a d with
  | Err err => add_diag (__init__ d) a = Err err
  | Ok _ =>
      ∃ res, add_diag (__init__ d) a = Ok (__init__ res)
        ∧ shape res = shape d ∧ wf res
        ∧ ∀ idx x, get d idx = Some x →
            ∃ y, get a (broadcast_index (shape a) idx) = Some y
               ∧ get res idx = Some (sadd x y)
  end.
Proof.
  intros Hd Ha. unfold add_diag, expand_as. simpl.
  destruct (expand a (shape d)) as [e | err] eqn:He; [|done]. simpl.
  destruct (expand_Ok _ _ _ Ha He) as [Hse Hwe].
  unfold add. rewrite map2_same_shape by done. simpl.
  eexists. split; [done |]. simpl. split; [done |]. split.
  { apply map2_wf; [done | by rewrite Hwe, Hse]. }
  intros idx x (o & Ho & Hx)%get_Some.
  destruct (expand_get _ _ _ idx Ha He) as [Hge [y Hy]]; [by exists o |].
  exists y. split; [by rewrite <- Hge |].
  apply get_Some in Hy as (oy & Hoy & Hy). rewrite Hse, Ho in Hoy. simplify_eq.
  apply get_Some. exists oy. simpl. split; [done |].
  by rewrite lookup_zip_with, Hx, Hy.
Qed.

End AddDiag.

(** ** Sums of diagonals of different shapes *)

Section AddBroadcast.
Context {R : Type} `{Scalar R} {X : Type}.

(** X2.  The sum of two diagonal lazy tensors follows torch's broadcasting:
    it fails exactly when the shapes of the two diagonals do not broadcast,
    and otherwise is the diagonal lazy tensor of the broadcast shape that
    holds at each index the sum of the two entries paired with it.  So an
    unbatched diagonal added to a batched one gives a batched diagonal. *)
Theorem add_diagonals_broadcasts (d1 d2 : tensor R) :
  wf d1 → wf d2 →
  match broadcast_shapes (shape d1) (shape d2) with
  | Err err => __add__ (X := X) (__init__ d1) (Diagonal (__init__ d2)) = Err err
  | Ok s =>
      ∃ res, __add__ (X := X) (__init__ d1) (Diagonal (__init__ d2))
             = Ok (Diagonal (__init__ res))
        ∧ shape res = s ∧ wf res
        ∧ ∀ idx, is_Some (offset s idx) →
            ∃ x y, get d1 (broadcast_index (shape d1) idx) = Some x
                 ∧ get d2 (broadcast_index (shape d2) idx) = Some y
                 ∧ get res idx = Some (sadd x y)
  end.
Proof.
  intros H1 H2. unfold __add__, add. simpl.
  destruct (broadcast_shapes (shape d1) (shape d2)) as [s | err] eqn:Hs.
  - destruct (map2_defined sadd d1 d2 s Hs) as (res & Hres & Hshape).
    rewrite Hres. simpl. exists res. split; [done |]. split; [done |].
    destruct (map2_get sadd d1 d2 res H1 H2 Hres) as (_ & Hw & Hget).
    split; [done |]. intros idx Hidx. apply Hget. by rewrite Hshape.
  - by rewrite (map2_undefined sadd d1 d2 err).
Qed.

End AddBroadcast.

(** ** Shapes that [_matmul] rejects, and one it does not *)

Section MatmulShapes.
Context {R : Type} `{Scalar R}.
Implicit Types (d v rhs : tensor R).

(** X3.  [_matmul] on shapes that do not fit.  An unbatched diagonal of
    length [n] and a vector of another length [m], neither of them 1, fail
    in the elementwise product.  An unbatched diagonal of length [n ≠ 1] and
    a matrix with another number of rows fail in the expansion.  A batched
    diagonal fails on every plain vector, whatever its length. *)
Theorem matmul_rejects_misfits :
  (∀ d v (n m : nat), shape d = [n] → shape v = [m] → n ≠ m → n ≠ 1 → m ≠ 1 →
     _matmul (__init__ d) v = Err BroadcastMismatch)
  ∧ (∀ d rhs (n m k : nat), shape d = [n] → shape rhs = [m; k] → n ≠ m → n ≠ 1 →
       _matmul (__init__ d) rhs = Err ExpandMismatch)
  ∧ (∀ d v (b n m : nat), shape d = [b; n] → shape v = [m] →
       _matmul (__init__ d) v = Err ExpandMismatch).
Proof.
  split; [|split].
  - intros d v n m Hd Hv Hnm Hn Hm. unfold _matmul.
    rewrite decide_True by (unfold Torch.ndimension; by rewrite Hv).
    rewrite (ndimension_unbatched d n) by done. simpl. unfold mul.
    apply map2_undefined. rewrite Hd, Hv. by apply broadcast_shapes_vectors_mismatch.
  - intros d rhs n m k Hd Hrhs Hnm Hn. unfold _matmul.
    rewrite decide_False by (unfold Torch.ndimension; by rewrite Hrhs).
    simpl. rewrite unsqueeze_last. simpl. unfold expand_as, expand, Torch.ndimension.
    rewrite Hd, Hrhs. simpl. unfold left_pad. simpl.
    by rewrite (bool_decide_eq_false_2 (n = m)), (bool_decide_eq_false_2 (n = 1)).
  - intros d v b n m Hd Hv. unfold _matmul.
    rewrite decide_True by (unfold Torch.ndimension; by rewrite Hv).
    rewrite (ndimension_batched d b n) by done. simpl.
    rewrite unsqueeze_last. simpl. unfold expand_as, expand, Torch.ndimension.
    rewrite Hd, Hv. simpl. done.
Qed.

(** X4.  A diagonal of length 1 is not rejected on a longer vector: its one
    entry scales every element of the vector. *)
Theorem matmul_length_one_diagonal_scales d v (m : nat) :
  shape d = [1] → shape v = [m] → wf d → wf v →
  ∃ res, _matmul (__init__ d) v = Ok res ∧ shape res = [m] ∧ wf res
    ∧ ∀ j x y, get d [0] = Some x → get v [j] = Some y →
        get res [j] = Some (smul x y).
Proof.
  intros Hd Hv Hwd Hwv. unfold _matmul.
  rewrite decide_True by (unfold Torch.ndimension; by rewrite Hv).
  rewrite (ndimension_unbatched d 1) by done. simpl. unfold mul.
  assert (Hs : broadcast_shapes (shape d) (shape v) = Ok [m]).
  { rewrite Hd, Hv. unfold broadcast_shapes, left_pad. simpl.
    destruct (decide (1 = m)) as [<- | Hm]; [done |]. done. }
  destruct (map2_defined smul d v [m] Hs) as (res & Hres & Hshape).
  destruct (map2_get smul d v res Hwd Hwv Hres) as (_ & Hw & Hget).
  exists res. split; [done |]. split; [done |]. split; [done |].
  intros j x y Hx (o & Ho & Hy)%get_Some.
  destruct (Hget [j]) as (x' & y' & Hx' & Hy' & Hr).
  { rewrite Hshape. rewrite Hv in Ho. by exists o. }
  rewrite Hd in Hx'. unfold broadcast_index in Hx'. simpl in Hx'.
  rewrite Hx in Hx'. injection Hx' as <-.
  rewrite Hv in Hy'. unfold broadcast_index in Hy'. simpl in Hy'.
  destruct (decide (m = 1)) as [-> | Hm].
  - rewrite Hv in Ho. simpl in Ho. case_decide; [|done].
    assert (j = 0) as -> by lia.
    assert (Hy0 : get v [0] = Some y) by (apply get_Some; exists o; by rewrite Hv).
    rewrite Hy0 in Hy'. by injection Hy' as <-.
  - assert (Hyj : get v [j] = Some y) by (apply get_Some; by exists o).
    rewrite Hyj in Hy'. by injection Hy' as <-.
Qed.

End MatmulShapes.

(** ** Indices below zero and out of range *)

Lemma wrap_index_in_range (n : nat) (i : Z) :
  (- Z.of_nat n ≤ i < Z.of_nat n)%Z →
  wrap_index n i = Ok (wrapped n i) ∧ wrapped n i < n.
Proof.
  intros Hi. unfold wrap_index, wrapped.
  destruct (decide (i < 0)%Z) as [Hneg | Hpos].
  - rewrite decide_False by lia. rewrite decide_True by lia. split; [done | lia].
  - rewrite decide_True by lia. split; [done | lia].
Qed.

Lemma wrap_index_out_of_range (n : nat) (i : Z) :
  ¬ (- Z.of_nat n ≤ i < Z.of_nat n)%Z → wrap_index n i = Err IndexOutOfRange.
Proof. intros Hi. unfold wrap_index. by rewrite !decide_False by lia. Qed.

Lemma wrap_index_Err (n : nat) (i : Z) (err : error) :
  wrap_index n i = Err err → err = IndexOutOfRange.
Proof. unfold wrap_index. repeat case_decide; congruence. Qed.

(** One failing element fails the whole traversal, with the one error the
    function can give. *)
Lemma mapR_Err {A B : Type} (f : A → result B) (l : list A) (err : error) :
  (∀ x e, f x = Err e → e = err) → Exists (λ x, ∃ e, f x = Err e) l →
  mapR f l = Err err.
Proof.
  intros Hf. induction 1 as [x l [e He] | x l _ IH]; simpl.
  - rewrite He. simpl. f_equal. by eapply Hf.
  - destruct (f x) as [y | e] eqn:Hx; simpl; [by rewrite IH |].
    f_equal. by eapply Hf.
Qed.

Section GetIndicesEntries.
Context {R : Type} `{Scalar R}.
Implicit Types (d : tensor R) (lidx ridx bidx : tensor Z).

(** The tensor [_get_indices] returns for row indices in [[-n, n)], and its
    elements. *)
Lemma get_indices_entries d lidx ridx (n : nat) :
  shape d = [n] → wf d → wf lidx → wf ridx → shape lidx = shape ridx →
  Forall (λ i, (- Z.of_nat n ≤ i < Z.of_nat n)%Z) (data lidx) →
  ∃ res, _get_indices (__init__ d) lidx ridx = Ok res
    ∧ shape res = shape lidx ∧ wf res
    ∧ ∀ idx r c, get lidx idx = Some r → get ridx idx = Some c →
        ∃ x, get d [wrapped n r] = Some x ∧ get res idx = Some (masked x r c).
Proof.
  intros Hsd Hwd Hwl Hwr Hsh Hrange.
  rewrite list.Forall_forall in Hrange.
  set (row := λ i : Z, block 1 (wrapped n i) (data d)).
  assert (Hblocks : Forall (λ i : Z, length (row i) = 1) (data lidx)).
  { apply list.Forall_forall. intros i Hi. unfold row.
    apply block_length. rewrite Hwd, Hsd. simpl.
    destruct (wrap_index_in_range n i (Hrange i Hi)) as [_ Hlt]. lia. }
  assert (Hitem : getitem1 d lidx = Ok (Tensor (shape lidx) (data lidx ≫= row))).
  { unfold getitem1. rewrite Hsd. simpl. rewrite (mapR_Ok _ row).
    - simpl. by rewrite app_nil_r, join_fmap_bind.
    - apply list.Forall_forall. intros i Hi.
      destruct (wrap_index_in_range n i (Hrange i Hi)) as [-> _]. done. }
  unfold _get_indices, eq. rewrite map2_same_shape by done. simpl.
  rewrite Hitem. simpl. unfold mul, type_as, map1. simpl.
  rewrite map2_same_shape; simpl; try done.
  2:{ unfold wf. simpl. rewrite (length_bind_blocks _ 1) by done. rewrite Hwl. lia. }
  2:{ unfold wf. simpl. rewrite length_fmap, length_zip_with, Hwl, Hwr, Hsh. lia. }
  eexists. split; [done |]. simpl. split; [done |]. split.
  { apply map2_wf.
    - rewrite (length_bind_blocks _ 1) by done. rewrite Hwl. lia.
    - rewrite length_fmap, length_zip_with, Hwl, Hwr, Hsh. lia. }
  intros idx r c (o & Ho & Hr)%get_Some (o' & Ho' & Hc)%get_Some.
  rewrite <- Hsh, Ho in Ho'. injection Ho' as <-.
  destruct (wrap_index_in_range n r) as [_ Hlt];
    [apply Hrange; by apply list_elem_of_lookup_2 with o |].
  destruct (lookup_lt_is_Some_2 (data d) (wrapped n r)) as [x Hx];
    [rewrite Hwd, Hsd; simpl; lia |].
  exists x. split.
  - apply get_Some. exists (wrapped n r). split; [|done].
    rewrite Hsd. by apply offset_singleton.
  - apply get_Some. exists o. simpl. split; [done |].
    rewrite lookup_zip_with, lookup_bind_singletons, Hr by done. simpl.
    unfold row. rewrite block_lookup by lia.
    replace (wrapped n r * 1 + 0) with (wrapped n r) by lia. rewrite Hx. simpl.
    rewrite list_lookup_fmap, lookup_zip_with, Hr, Hc. simpl.
    by rewrite lookup_mask.
Qed.

(** X5.  [_get_indices] accepts row indices below zero: an index [r] in
    [[-n, 0)] reads the entry [d[n + r]].  The comparison with the column
    index is on the indices as given, so a negative row index and the
    non-negative column index of the same position count as different. *)
Theorem get_indices_wraps_negative_rows d lidx ridx (n : nat) :
  shape d = [n] → wf d → wf lidx → wf ridx → shape lidx = shape ridx →
  Forall (λ i, (- Z.of_nat n ≤ i < Z.of_nat n)%Z) (data lidx) →
  ∃ res, _get_indices (__init__ d) lidx ridx = Ok res
    ∧ shape res = shape lidx
    ∧ ∀ idx r c, get lidx idx = Some r → get ridx idx = Some c →
        ∃ x, get d [wrapped n r] = Some x
           ∧ get res idx = Some (smul x (if decide (r = c) then sone else szero)).
Proof.
  intros Hsd Hwd Hwl Hwr Hsh Hrange.
  destruct (get_indices_entries d lidx ridx n) as (res & Hres & Hshape & _ & Hget);
    try done.
  exists res. split; [done |]. split; [done |]. apply Hget.
Qed.

(** X6.  An index outside the diagonal fails the lookup: [_get_indices] when
    a row index is outside [[-n, n)], [_batch_get_indices] when a batch index
    is outside [[-b, b)] or a row index is outside [[-n, n)].  Nothing is
    returned for the positions that are in range. *)
Theorem get_indices_rejects_out_of_range :
  (∀ d lidx ridx (n : nat),
     shape d = [n] → wf lidx → wf ridx → shape lidx = shape ridx →
     Exists (λ i, ¬ (- Z.of_nat n ≤ i < Z.of_nat n)%Z) (data lidx) →
     _get_indices (__init__ d) lidx ridx = Err IndexOutOfRange)
  ∧ (∀ d bidx lidx ridx (b n : nat),
       shape d = [b; n] → wf bidx → wf lidx → wf ridx →
       shape bidx = shape lidx → shape lidx = shape ridx →
       Exists (λ i, ¬ (- Z.of_nat b ≤ i < Z.of_nat b)%Z) (data bidx)
       ∨ Exists (λ i, ¬ (- Z.of_nat n ≤ i < Z.of_nat n)%Z) (data lidx) →
       _batch_get_indices (__init__ d) bidx lidx ridx = Err IndexOutOfRange).
Proof.
  split.
  - intros d lidx ridx n Hsd Hwl Hwr Hsh Hout.
    unfold _get_indices, eq. rewrite map2_same_shape by done. simpl.
    unfold getitem1. rewrite Hsd. simpl.
    rewrite (mapR_Err _ _ IndexOutOfRange); [done | |].
    + intros i e. destruct (wrap_index n i) eqn:Hw; simpl; [done |].
      intros [= <-]. by eapply wrap_index_Err.
    + eapply List.Exists_impl; [|exact Hout]. simpl. intros i Hi.
      rewrite wrap_index_out_of_range by done. by eexists.
  - intros d bidx lidx ridx b n Hsd Hwb Hwl Hwr Hsb Hsh Hout.
    unfold _batch_get_indices, eq. rewrite map2_same_shape by done. simpl.
    unfold getitem2. rewrite Hsd. rewrite map2_same_shape by done. simpl.
    rewrite (mapR_Err _ _ IndexOutOfRange); [done | |].
    + intros [i j] e.
      destruct (wrap_index b i) eqn:Hi; simpl;
        [|intros [= <-]; by eapply wrap_index_Err].
      destruct (wrap_index n j) eqn:Hj; simpl; [done |].
      intros [= <-]. by eapply wrap_index_Err.
    + assert (Hlen : length (data bidx) = length (data lidx)) by (by rewrite Hwb, Hwl, Hsb).
      apply Exists_exists.
      destruct Hout as [Hout | Hout]; apply Exists_exists in Hout as (i & Hi & Hbad).
      * apply list_elem_of_In, list_elem_of_lookup_1 in Hi as [k Hk].
        destruct (lookup_lt_is_Some_2 (data lidx) k) as [j Hj];
          [rewrite <- Hlen; by eapply lookup_lt_Some |].
        exists (i, j). split.
        -- apply list_elem_of_In, list_elem_of_lookup_2 with k.
           by apply lookup_zip_Some.
        -- rewrite wrap_index_out_of_range by done. by eexists.
      * apply list_elem_of_In, list_elem_of_lookup_1 in Hi as [k Hk].
        destruct (lookup_lt_is_Some_2 (data bidx) k) as [p Hp];
          [rewrite Hlen; by eapply lookup_lt_Some |].
        exists (p, i). split.
        -- apply list_elem_of_In, list_elem_of_lookup_2 with k.
           by apply lookup_zip_Some.
        -- destruct (wrap_index b p); simpl; [|by eexists].
           rewrite wrap_index_out_of_range by done. by eexists.
Qed.

End GetIndicesEntries.

(** ** The lazy operations against the dense matrix *)

Section Dense.
Context {R : Type} `{Scalar R}.
Implicit Types (d v : tensor R) (super_evaluate : DiagLazyTensor R → result (tensor R)).

(** The dense matrix of an unbatched diagonal, and its elements. *)
Lemma evaluate_entries super_evaluate d (n : nat) :
  shape d = [n] → wf d →
  ∃ dense, evaluate super_evaluate (__init__ d) = Ok dense ∧ shape dense = [n; n]
    ∧ ∀ i j x, i < n → j < n → data d !! i = Some x →
        get dense [i; j] = Some (if decide (i = j) then x else szero).
Proof.
  intros Hs Hw. unfold evaluate.
  rewrite (ndimension_unbatched d n) by done. simpl. unfold Torch.diag. rewrite Hs.
  set (row := λ (i : nat) (x : R), <[i:=x]> (replicate n szero)).
  assert (Hrows : Forall (λ r : list R, length r = n) (imap row (data d))).
  { apply list.Forall_forall. intros r (i & Hr)%list_elem_of_lookup_1.
    rewrite list_lookup_imap in Hr. destruct (data d !! i); simplify_eq/=.
    unfold row. by rewrite length_insert, length_replicate. }
  eexists. split; [done |]. simpl. split; [done |].
  intros i j x Hi Hj Hx.
  apply get_Some. exists (i * n + j). simpl. split; [by apply offset_pair |].
  rewrite (lookup_join_blocks n) by done.
  rewrite list_lookup_imap, Hx. simpl. unfold row.
  rewrite list_lookup_insert, length_replicate, lookup_replicate_2 by done.
  destruct (decide (i = j)); [by rewrite decide_True | by rewrite decide_False by tauto].
Qed.

(** X7.  Element access agrees with the dense matrix.  For an unbatched
    diagonal and row and column indices in [[0, n)], under [x * 1 = x] and
    [x * 0 = 0], the element [_get_indices] returns at each position is the
    element of [evaluate()] at that row and column. *)
Theorem get_indices_reads_dense_matrix `{!ScalarLaws R}
    super_evaluate d (lidx ridx : tensor Z) (n : nat) :
  shape d = [n] → wf d → wf lidx → wf ridx → shape lidx = shape ridx →
  Forall (λ i, (0 ≤ i < Z.of_nat n)%Z) (data lidx) →
  Forall (λ i, (0 ≤ i < Z.of_nat n)%Z) (data ridx) →
  ∃ res dense, _get_indices (__init__ d) lidx ridx = Ok res
    ∧ evaluate super_evaluate (__init__ d) = Ok dense
    ∧ ∀ idx r c, get lidx idx = Some r → get ridx idx = Some c →
        is_Some (get res idx)
        ∧ get res idx = get dense [Z.to_nat r; Z.to_nat c].
Proof.
  intros Hsd Hwd Hwl Hwr Hsh Hrows Hcols.
  destruct (get_indices_entries d lidx ridx n) as (res & Hres & _ & _ & Hget); try done.
  { eapply list.Forall_impl; [exact Hrows |]. simpl. lia. }
  destruct (evaluate_entries super_evaluate d n) as (dense & Hdense & _ & Hentry);
    try done.
  exists res, dense. split; [done |]. split; [done |].
  intros idx r c Hr Hc.
  destruct (Hget idx r c Hr Hc) as (x & Hx & Hmasked).
  rewrite Hmasked. split; [done |].
  rewrite list.Forall_forall in Hrows, Hcols.
  apply get_Some in Hr as (o & _ & Hr). apply get_Some in Hc as (o' & _ & Hc).
  pose proof (Hrows r (list_elem_of_lookup_2 _ _ _ Hr)) as Hrin.
  pose proof (Hcols c (list_elem_of_lookup_2 _ _ _ Hc)) as Hcin.
  assert (Hwrap : wrapped n r = Z.to_nat r).
  { unfold wrapped. by rewrite decide_False by lia. }
  rewrite Hwrap in Hx. apply get_Some in Hx as (ox & Hox & Hx).
  rewrite Hsd, offset_singleton in Hox by lia. injection Hox as <-.
  rewrite (Hentry (Z.to_nat r) (Z.to_nat c) x) by (done || lia).
  rewrite masked_exact. f_equal.
  destruct (decide (r = c)) as [-> | Hne]; [by rewrite decide_True |].
  rewrite decide_False; [done | lia].
Qed.

End Dense.

Section DenseProduct.
Context {R : Type} `{Scalar R} `{!SemiringLaws R}.
Implicit Types (d v : tensor R) (xs : list R).

Lemma foldl_sadd_acc (a : R) xs :
  foldl sadd a xs = sadd a (foldl sadd szero xs).
Proof.
  revert a; induction xs as [|x xs IH]; intros a; simpl.
  - by rewrite sadd_zero_r.
  - rewrite (IH (sadd a x)), (IH (sadd szero x)), sadd_zero_l. by rewrite sadd_assoc.
Qed.

Lemma foldl_sadd_cons (x : R) xs :
  foldl sadd szero (x :: xs) = sadd x (foldl sadd szero xs).
Proof. simpl. by rewrite foldl_sadd_acc, sadd_zero_l. Qed.

Lemma foldl_sadd_app xs (ys : list R) :
  foldl sadd szero (xs ++ ys) = sadd (foldl sadd szero xs) (foldl sadd szero ys).
Proof. by rewrite foldl_app, foldl_sadd_acc. Qed.

Lemma foldl_sadd_zeros xs :
  (∀ j x, xs !! j = Some x → x = szero) → foldl sadd szero xs = szero.
Proof.
  induction xs as [|x xs IH]; intros Hz; [done |].
  rewrite foldl_sadd_cons, (Hz 0 x eq_refl), sadd_zero_l.
  apply IH. intros j y Hy. by apply (Hz (S j)).
Qed.

(** A sum with one term that is not zero. *)
Lemma foldl_sadd_single xs (i : nat) (y : R) :
  xs !! i = Some y → (∀ j x, xs !! j = Some x → j ≠ i → x = szero) →
  foldl sadd szero xs = y.
Proof.
  revert i; induction xs as [|x xs IH]; intros i Hi Hz; [done |].
  rewrite foldl_sadd_cons. destruct i as [|i]; simpl in Hi.
  - injection Hi as ->. rewrite foldl_sadd_zeros, sadd_zero_r; [done |].
    intros j x Hx. by apply (Hz (S j)).
  - rewrite (Hz 0 x eq_refl) by done. rewrite sadd_zero_l.
    apply (IH i Hi). intros j z Hzj Hne. apply (Hz (S j)); [done | lia].
Qed.

(** X8.  The lazy product is the dense one.  For an unbatched diagonal and a
    vector of its length, over a semiring, element [i] of [_matmul]'s result
    is the sum over [j] of the element [(i, j)] of [evaluate()] times element
    [j] of the vector. *)
Theorem matmul_is_dense_product super_evaluate d v (n : nat) :
  shape d = [n] → shape v = [n] → wf d → wf v →
  ∃ res dense, _matmul (__init__ d) v = Ok res
    ∧ evaluate super_evaluate (__init__ d) = Ok dense
    ∧ ∀ i xs, i < n →
        Forall2 (λ j x, ∃ e y, get dense [i; j] = Some e ∧ get v [j] = Some y
                             ∧ x = smul e y) (seq 0 n) xs →
        get res [i] = Some (foldl sadd szero xs).
Proof.
  intros Hsd Hsv Hwd Hwv.
  destruct (evaluate_entries super_evaluate d n) as (dense & Hdense & _ & Hentry);
    try done.
  exists (Tensor [n] (zip_with smul (data d) (data v))), dense.
  split.
  { unfold _matmul. rewrite decide_True by (unfold Torch.ndimension; by rewrite Hsv).
    rewrite (ndimension_unbatched d n) by done. simpl.
    unfold mul. rewrite map2_same_shape by congruence. by rewrite Hsd. }
  split; [done |]. intros i xs Hi Hxs.
  destruct (lookup_lt_is_Some_2 (data d) i) as [di Hdi]; [rewrite Hwd, Hsd; simpl; lia |].
  destruct (lookup_lt_is_Some_2 (data v) i) as [vi Hvi]; [rewrite Hwv, Hsv; simpl; lia |].
  apply get_Some. exists i. simpl. split; [by apply offset_singleton |].
  rewrite lookup_zip_with, Hdi, Hvi. simpl. f_equal. symmetry.
  apply Forall2_same_length_lookup in Hxs as [Hlen Hxs]. rewrite length_seq in Hlen.
  destruct (lookup_lt_is_Some_2 xs i) as [xi Hxi]; [lia |].
  apply (foldl_sadd_single xs i).
  - rewrite Hxi. f_equal.
    destruct (Hxs i i xi) as (e & y & He & Hy & ->); [by apply lookup_seq_lt | done |].
    rewrite (Hentry i i di) in He by done. rewrite decide_True in He by done.
    injection He as <-.
    apply get_Some in Hy as (o & Ho & Hy). rewrite Hsv, offset_singleton in Ho by done.
    injection Ho as <-. rewrite Hvi in Hy. by injection Hy as <-.
  - intros j x Hx Hne.
    assert (Hj : j < n) by (apply lookup_lt_Some in Hx; lia).
    destruct (Hxs j j x) as (e & y & He & Hy & ->); [by apply lookup_seq_lt | done |].
    rewrite (Hentry i j di) in He by done. rewrite decide_False in He by lia.
    injection He as <-. apply smul_zero_l.
Qed.

End DenseProduct.

(** ** Diagonals of other ranks *)

Lemma size_last {A : Type} (t : tensor A) (s : list nat) (n : nat) :
  shape t = s ++ [n] → Torch.size t (-1) = Ok n.
Proof.
  intros Hs. unfold Torch.size, Torch.ndimension. rewrite Hs, length_app. simpl.
  replace (length s + 1) with (S (length s)) by lia. rewrite wrap_dim_last. simpl.
  by rewrite lookup_app_r, Nat.sub_diag by lia.
Qed.

Section OtherRanks.
Context {R : Type} `{Scalar R}.
Implicit Types (d : tensor R) (super_evaluate : DiagLazyTensor R → result (tensor R)).

(** X9.  The constructor accepts a diagonal of any rank, and only rank 2
    counts as batched.  A diagonal with three or more dimensions is sized as
    one unbatched [n] by [n] matrix, [n] its last size, and its [evaluate]
    fails, the dense embedding taking vectors and matrices only.  A diagonal
    without dimensions has no size. *)
Theorem diagonal_of_other_rank :
  (∀ d (s : list nat) (n : nat), shape d = s ++ [n] → 2 ≤ length s →
     _size (__init__ d) = Ok [n; n])
  ∧ (∀ super_evaluate d (s : list nat) (n : nat), shape d = s ++ [n] → 2 ≤ length s →
       evaluate super_evaluate (__init__ d) = Err NotVectorOrMatrix)
  ∧ (∀ d, shape d = [] → _size (__init__ d) = Err DimOutOfRange).
Proof.
  assert (Hsize : ∀ d (s : list nat) (n : nat), shape d = s ++ [n] → 2 ≤ length s →
            _size (__init__ d) = Ok [n; n]).
  { intros d s n Hs Hlen. unfold _size. simpl.
    rewrite decide_False.
    - by rewrite (size_last d s n).
    - unfold Torch.ndimension. rewrite Hs, length_app. simpl. lia. }
  split; [done |]. split.
  - intros super d s n Hs Hlen. unfold evaluate, Lazy.ndimension, Lazy.size.
    rewrite (Hsize d s n) by done. simpl. unfold Torch.diag. rewrite Hs.
    destruct s as [|a [|b s]]; simpl in *; [lia | lia |].
    by destruct s.
  - intros d Hs. unfold _size, Torch.size, Torch.ndimension. simpl. by rewrite Hs.
Qed.

End OtherRanks.

(** ** More on sums over the batch *)

Lemma Forall2_seq_fmap {B : Type} (P : nat → B → Prop) (f : nat → B) (m : nat) :
  (∀ j, j < m → P j (f j)) → Forall2 P (seq 0 m) (f <$> seq 0 m).
Proof.
  intros HP. apply Forall2_fmap_r, Forall2_same_length_lookup. split; [done |].
  intros i j j' [-> Hj]%lookup_seq [-> _]%lookup_seq. simpl. by apply HP.
Qed.

Section SumBatchMore.
Context {R : Type} `{Scalar R}.
Implicit Types (d : tensor R).

(** What [sum_batch] returns on a batch of diagonals of positive length. *)
Lemma sum_batch_all d (b n : nat) :
  shape d = [b; n] → 0 < n →
  sum_batch (__init__ d) None = Ok (__init__ (Tensor [n] (sum_dim 1 b n (data d)))).
Proof.
  intros Hs Hn. unfold sum_batch. simpl.
  rewrite (size_last_of_matrix d b n) by done. simpl.
  rewrite view_rows, Hs. simpl. rewrite Nat.mul_1_r.
  rewrite decide_True by (split; [done | apply Nat.Div0.mod_mul]).
  rewrite Nat.div_mul by lia. simpl. by rewrite ?Nat.mul_1_r.
Qed.

Lemma sum_batch_grouped d (q g n : nat) :
  shape d = [q * g; n] → 0 < n → 0 < g →
  sum_batch (__init__ d) (Some (Z.of_nat g))
  = Ok (__init__ (Tensor [q; n] (sum_dim q g n (data d)))).
Proof.
  intros Hs Hn Hg. unfold sum_batch. simpl.
  rewrite (size_last_of_matrix d (q * g) n) by done. simpl.
  rewrite view_groups, Hs. simpl. rewrite Nat.mul_1_r.
  replace (q * g * n) with (q * (g * n)) by lia.
  rewrite decide_True by (split; [nia | apply Nat.Div0.mod_mul]).
  rewrite !Nat.div_mul by nia. simpl. by rewrite ?Nat.mul_1_r.
Qed.

(** X10.  [sum_batch] on an unbatched diagonal of length [n ≥ 1].  Without a
    group size the diagonal is viewed as a batch of one and summed: over a
    semiring the result is the lazy tensor itself.  A group size of 2 or
    more is refused. *)
Theorem sum_batch_of_unbatched `{!SemiringLaws R} d (n : nat) :
  shape d = [n] → wf d → 0 < n →
  sum_batch (__init__ d) None = Ok (__init__ d)
  ∧ (∀ g : nat, 2 ≤ g →
       sum_batch (__init__ d) (Some (Z.of_nat g)) = Err InvalidViewShape).
Proof.
  intros Hs Hw Hn.
  assert (Hlast : Torch.size d (-1) = Ok n) by (by apply (size_last d [] n)).
  split.
  - assert (Hlook : ∀ c x, data d !! c = Some x →
              sum_dim 1 1 n (data d) !! c = Some (sadd szero x)).
    { intros c x Hx.
      assert (Hc : c < n).
      { apply lookup_lt_Some in Hx. rewrite Hw, Hs in Hx. simpl in Hx. lia. }
      replace c with (0 * n + c) at 1 by lia.
      apply (sum_dim_lookup 1 1 n (data d) 0 c [x]); [|lia | done |].
      - rewrite Hw, Hs. simpl. lia.
      - repeat constructor. simpl. by replace ((0 + 0) * n + c) with c by lia. }
    unfold sum_batch. simpl. rewrite Hlast. simpl.
    rewrite view_rows, Hs. simpl. rewrite Nat.mul_1_r.
    rewrite decide_True by (split; [done | apply Nat.Div0.mod_same]).
    rewrite Nat.div_same by lia. simpl. rewrite ?Nat.mul_1_r. do 2 f_equal.
    destruct d as [sd ld]. simpl in *. subst sd. f_equal.
    apply list_eq. intros c. destruct (ld !! c) as [x|] eqn:Hx.
    + by rewrite (Hlook c x Hx), sadd_zero_l.
    + apply lookup_ge_None in Hx. apply lookup_ge_None.
      rewrite sum_dim_length; [unfold wf in Hw; simpl in Hw; lia |].
      unfold wf in Hw. simpl in Hw. lia.
  - intros g Hg. unfold sum_batch. simpl. rewrite Hlast. simpl.
    rewrite view_groups, Hs. simpl. rewrite Nat.mul_1_r.
    rewrite decide_False; [done |]. intros [_ Hmod].
    rewrite Nat.mod_small in Hmod by nia. lia.
Qed.

(** X11.  [sum_batch] takes the batch dimension away or shrinks it: on a
    batch of [b] diagonals of length [n ≥ 1] the result without a group size
    is sized as one unbatched [n] by [n] matrix, and the result with a group
    size [g ≥ 1] that divides [b] as a batch of [b / g] such matrices. *)
Theorem sum_batch_sizes d (b n : nat) :
  shape d = [b; n] → 0 < n →
  (∃ total, sum_batch (__init__ d) None = Ok total ∧ _size total = Ok [n; n])
  ∧ (∀ g : nat, 0 < g → (g | b) →
       ∃ grouped, sum_batch (__init__ d) (Some (Z.of_nat g)) = Ok grouped
         ∧ _size grouped = Ok [b `div` g; n; n]).
Proof.
  intros Hs Hn. split.
  - eexists. split; [by apply (sum_batch_all d b n) | done].
  - intros g Hg [q ->]. eexists. split; [by apply (sum_batch_grouped d q g n) |].
    by rewrite Nat.div_mul by lia.
Qed.

End SumBatchMore.

Section SumBatchTwice.
Context {R : Type} `{Scalar R} `{!SemiringLaws R}.
Implicit Types (d : tensor R).

(** A sum taken group by group. *)
Lemma foldl_sadd_groups (col : nat → R) (q g : nat) :
  foldl sadd szero (col <$> seq 0 (q * g))
  = foldl sadd szero
      ((λ r, foldl sadd szero ((λ j, col (r * g + j)) <$> seq 0 g)) <$> seq 0 q).
Proof.
  induction q as [|q IH]; [done |].
  rewrite seq_S, fmap_app, foldl_sadd_app, <- IH. simpl.
  rewrite sadd_zero_l.
  replace (g + q * g) with (q * g + g) by lia.
  rewrite seq_app, fmap_app, foldl_sadd_app. simpl. do 2 f_equal.
  replace (q * g) with (q * g + 0) at 1 by lia.
  by rewrite <- fmap_add_seq, <- list_fmap_compose.
Qed.

(** X12.  Summing the groups and then the batch of group sums gives the sum
    of the whole batch: over a semiring, for a batch of [b] diagonals of
    length [n ≥ 1] and a group size [g ≥ 1] that divides [b],
    [sum_batch(g)] followed by [sum_batch()] returns what [sum_batch()]
    returns. *)
Theorem sum_batch_groups_then_all d (b n g : nat) :
  shape d = [b; n] → wf d → 0 < n → 0 < g → (g | b) →
  ∃ grouped total, sum_batch (__init__ d) (Some (Z.of_nat g)) = Ok grouped
    ∧ sum_batch grouped None = Ok total
    ∧ sum_batch (__init__ d) None = Ok total.
Proof.
  intros Hs Hw Hn Hg [q ->].
  assert (Hlen : length (data d) = q * (g * n)) by (rewrite Hw, Hs; simpl; lia).
  exists (__init__ (Tensor [q; n] (sum_dim q g n (data d)))),
         (__init__ (Tensor [n] (sum_dim 1 q n (sum_dim q g n (data d))))).
  split; [by apply sum_batch_grouped |].
  split; [exact (sum_batch_all (Tensor [q; n] (sum_dim q g n (data d))) q n eq_refl Hn) |].
  rewrite (sum_batch_all d (q * g) n) by done. do 3 f_equal.
  apply list_eq. intros c. destruct (decide (c < n)) as [Hc | Hc].
  - set (col := λ k : nat, default szero (data d !! (k * n + c))).
    assert (Hcol : ∀ k, k < q * g → data d !! (k * n + c) = Some (col k)).
    { intros k Hk. unfold col.
      destruct (lookup_lt_is_Some_2 (data d) (k * n + c)) as [x ->]; [nia | done]. }
    assert (Hall : sum_dim 1 (q * g) n (data d) !! (0 * n + c)
                   = Some (foldl sadd szero (col <$> seq 0 (q * g)))).
    { apply sum_dim_lookup; [lia | lia | done |].
      apply Forall2_seq_fmap. intros k Hk. simpl. by apply Hcol. }
    assert (Htwice : sum_dim 1 q n (sum_dim q g n (data d)) !! (0 * n + c)
                     = Some (foldl sadd szero
                               ((λ r, foldl sadd szero
                                        ((λ j, col (r * g + j)) <$> seq 0 g))
                                  <$> seq 0 q))).
    { apply sum_dim_lookup; [rewrite sum_dim_length by done; lia | lia | done |].
      apply Forall2_seq_fmap. intros r Hr. simpl.
      apply sum_dim_lookup; [done | done | done |].
      apply Forall2_seq_fmap. intros j Hj. simpl. apply Hcol. nia. }
    simpl in Hall, Htwice. by rewrite Hall, Htwice, foldl_sadd_groups.
  - rewrite !(proj2 (lookup_ge_None _ _)); [done | |].
    + rewrite sum_dim_length; [lia |]. rewrite sum_dim_length by done. lia.
    + rewrite sum_dim_length; [lia |]. lia.
Qed.

End SumBatchTwice.

(** ** Sampling: the number of samples and the rank *)

Section SamplingEdges.
Context {R : Type} `{Scalar R} `{Sqrt R}.
Implicit Types (d : tensor R) (gen : nat → R).

(** X13.  [zero_mean_mvn_samples] with a negative number of samples fails in
    the draw, for an unbatched and for a batched diagonal; on a diagonal
    without dimensions it fails before anything is drawn, the lazy tensor
    having no size. *)
Theorem zero_mean_mvn_samples_rejects :
  (∀ gen d (num : Z), (num < 0)%Z →
     (∃ n : nat, shape d = [n]) ∨ (∃ b n : nat, shape d = [b; n]) →
     zero_mean_mvn_samples gen (__init__ d) num = Err NegativeSize)
  ∧ (∀ gen d (num : Z), shape d = [] →
       zero_mean_mvn_samples gen (__init__ d) num = Err DimOutOfRange).
Proof.
  split.
  - intros gen d num Hnum Hshape. unfold zero_mean_mvn_samples.
    destruct Hshape as [[n Hs] | (b & n & Hs)].
    + rewrite (ndimension_unbatched d n) by done. simpl.
      unfold Torch.size, Torch.ndimension. rewrite !Hs. simpl.
      unfold randn. rewrite bool_decide_eq_true_2; [done |].
      by apply Exists_cons_hd.
    + rewrite (ndimension_batched d b n) by done. simpl.
      unfold Torch.size, Torch.ndimension. rewrite !Hs. simpl.
      unfold randn. rewrite bool_decide_eq_true_2; [done |].
      by apply Exists_cons_hd.
  - intros gen d num Hs. unfold zero_mean_mvn_samples, Lazy.ndimension, Lazy.size, _size.
    unfold Torch.size, Torch.ndimension. simpl. by rewrite Hs.
Qed.

End SamplingEdges.

(** ** Linearity of the product *)

Section Linear.
Context {R : Type} `{Scalar R}.
Implicit Types (d v w : tensor R).

(** The product of an unbatched diagonal with a vector of its length. *)
Lemma matmul_vector d v (n : nat) :
  shape d = [n] → shape v = [n] → wf d → wf v →
  _matmul (__init__ d) v = Ok (Tensor [n] (zip_with smul (data d) (data v))).
Proof.
  intros Hd Hv Hwd Hwv. unfold _matmul.
  rewrite decide_True by (unfold Torch.ndimension; by rewrite Hv).
  rewrite (ndimension_unbatched d n) by done. simpl.
  unfold mul. rewrite map2_same_shape by congruence. by rewrite Hd.
Qed.

Lemma add_vectors v w (n : nat) :
  shape v = [n] → shape w = [n] → wf v → wf w →
  add v w = Ok (Tensor [n] (zip_with sadd (data v) (data w))).
Proof.
  intros Hv Hw Hwv Hww. unfold add. rewrite map2_same_shape by congruence.
  by rewrite Hv.
Qed.

Lemma vector_wf (n : nat) (f : R → R → R) (l k : list R) :
  length l = n → length k = n → wf (Tensor [n] (zip_with f l k)).
Proof. intros Hl Hk. apply map2_wf; simpl; lia. Qed.

Lemma wf_vector_length v (n : nat) : shape v = [n] → wf v → length (data v) = n.
Proof. intros Hs Hw. rewrite Hw, Hs. simpl. lia. Qed.

(** X14.  The product distributes over the sum of diagonals: over a
    semiring, for unbatched diagonals [d1], [d2] and a vector [v] of one
    length, the product of [d1 + d2] with [v] is the sum of the products of
    [d1] and of [d2] with [v]. *)
Theorem matmul_of_sum_of_diagonals `{!SemiringLaws R} {X : Type}
    (d1 d2 : tensor R) v (n : nat) :
  shape d1 = [n] → shape d2 = [n] → shape v = [n] → wf d1 → wf d2 → wf v →
  ∃ both p p1 p2,
    __add__ (X := X) (__init__ d1) (Diagonal (__init__ d2)) = Ok (Diagonal both)
    ∧ _matmul both v = Ok p
    ∧ _matmul (__init__ d1) v = Ok p1
    ∧ _matmul (__init__ d2) v = Ok p2
    ∧ add p1 p2 = Ok p.
Proof.
  intros Hs1 Hs2 Hsv Hw1 Hw2 Hwv.
  pose proof (wf_vector_length _ _ Hs1 Hw1) as Hl1.
  pose proof (wf_vector_length _ _ Hs2 Hw2) as Hl2.
  pose proof (wf_vector_length _ _ Hsv Hwv) as Hlv.
  exists (__init__ (Tensor [n] (zip_with sadd (data d1) (data d2)))),
         (Tensor [n] (zip_with smul (zip_with sadd (data d1) (data d2)) (data v))),
         (Tensor [n] (zip_with smul (data d1) (data v))),
         (Tensor [n] (zip_with smul (data d2) (data v))).
  split; [unfold __add__; simpl; by rewrite (add_vectors d1 d2 n) |].
  split.
  { apply (matmul_vector (Tensor [n] (zip_with sadd (data d1) (data d2))) v n);
      try done. by apply vector_wf. }
  split; [by apply matmul_vector |]. split; [by apply matmul_vector |].
  rewrite (add_vectors _ _ n); try done; try by apply vector_wf.
  simpl. do 2 f_equal. apply list_eq. intros i.
  rewrite !lookup_zip_with.
  destruct (data d1 !! i) as [x|]; simpl; [|done].
  destruct (data d2 !! i) as [y|] eqn:Hy; simpl.
  - destruct (data v !! i) as [z|]; simpl; [|done]. by rewrite smul_add_r.
  - apply lookup_ge_None in Hy.
    rewrite (proj2 (lookup_ge_None (data v) i)); [done | lia].
Qed.

(** X15.  The product is additive in the vector: over a semiring, for an
    unbatched diagonal [d] and vectors [v], [w] of its length, the product
    with [v + w] is the sum of the products with [v] and with [w]. *)
Theorem matmul_of_sum_of_vectors `{!SemiringLaws R} d v w (n : nat) :
  shape d = [n] → shape v = [n] → shape w = [n] → wf d → wf v → wf w →
  ∃ both p pv pw,
    add v w = Ok both
    ∧ _matmul (__init__ d) both = Ok p
    ∧ _matmul (__init__ d) v = Ok pv
    ∧ _matmul (__init__ d) w = Ok pw
    ∧ add pv pw = Ok p.
Proof.
  intros Hsd Hsv Hsw Hwd Hwv Hww.
  pose proof (wf_vector_length _ _ Hsd Hwd) as Hld.
  pose proof (wf_vector_length _ _ Hsv Hwv) as Hlv.
  pose proof (wf_vector_length _ _ Hsw Hww) as Hlw.
  exists (Tensor [n] (zip_with sadd (data v) (data w))),
         (Tensor [n] (zip_with smul (data d) (zip_with sadd (data v) (data w)))),
         (Tensor [n] (zip_with smul (data d) (data v))),
         (Tensor [n] (zip_with smul (data d) (data w))).
  split; [by apply add_vectors |].
  split.
  { apply (matmul_vector d (Tensor [n] (zip_with sadd (data v) (data w))) n);
      try done. by apply vector_wf. }
  split; [by apply matmul_vector |]. split; [by apply matmul_vector |].
  rewrite (add_vectors _ _ n); try done; try by apply vector_wf.
  simpl. do 2 f_equal. apply list_eq. intros i.
  rewrite !lookup_zip_with.
  destruct (data d !! i) as [x|]; simpl; [|done].
  destruct (data v !! i) as [y|] eqn:Hy; simpl; [|done].
  destruct (data w !! i) as [z|]; simpl; [|done]. by rewrite smul_add_l.
Qed.

(** X16.  What makes [_quad_form_derivative] a derivative.  For an
    unbatched diagonal [d] and vectors [l], [r] of its length, with a
    multiplication that commutes and associates, term [i] of the bilinear
    form, [l[i]] times element [i] of the product of [d] with [r], is [d[i]]
    times element [i] of the tensor [_quad_form_derivative] returns: the
    form is linear in the diagonal with these coefficients. *)
Theorem quad_form_derivative_is_coefficient `{!MulLaws R} d (l r : tensor R) (n : nat) :
  shape d = [n] → shape l = [n] → shape r = [n] → wf d → wf l → wf r →
  ∃ q p, _quad_form_derivative (__init__ d) l r = Ok [q]
    ∧ _matmul (__init__ d) r = Ok p
    ∧ ∀ i li di, get l [i] = Some li → get d [i] = Some di →
        ∃ qi pi, get q [i] = Some qi ∧ get p [i] = Some pi
               ∧ smul li pi = smul di qi.
Proof.
  intros Hsd Hsl Hsr Hwd Hwl Hwr.
  exists (Tensor [n] (zip_with smul (data l) (data r))),
         (Tensor [n] (zip_with smul (data d) (data r))).
  split.
  { unfold _quad_form_derivative, mul. rewrite map2_same_shape by congruence.
    simpl. rewrite decide_False; [by rewrite Hsl |].
    unfold Torch.ndimension. simpl. rewrite Hsl, Hsd. simpl. lia. }
  split; [by apply matmul_vector |].
  intros i li di (ol & Hol & Hli)%get_Some (od & Hod & Hdi)%get_Some.
  rewrite Hsl in Hol. rewrite Hsd in Hod. simpl in Hol, Hod.
  case_decide as Hi; [|done]. simpl in Hol, Hod. simplify_eq.
  replace (i * 1 + 0) with i in Hli, Hdi by lia.
  destruct (lookup_lt_is_Some_2 (data r) i) as [ri Hri];
    [rewrite (wf_vector_length r n); done |].
  exists (smul li ri), (smul di ri). split; [|split].
  - apply get_Some. exists i. simpl. split; [by apply offset_singleton |].
    by rewrite lookup_zip_with, Hli, Hri.
  - apply get_Some. exists i. simpl. split; [by apply offset_singleton |].
    by rewrite lookup_zip_with, Hdi, Hri.
  - by rewrite smul_assoc, (smul_comm li di), <- smul_assoc.
Qed.

End Linear.

(** ** The dense matrix: symmetry and sums *)

Section DenseMore.
Context {R : Type} `{Scalar R}.
Implicit Types (d : tensor R) (super_evaluate : DiagLazyTensor R → result (tensor R)).

Lemma evaluate_wf super_evaluate d (n : nat) (dense : tensor R) :
  shape d = [n] → wf d → evaluate super_evaluate (__init__ d) = Ok dense → wf dense.
Proof.
  intros Hs Hw. unfold evaluate.
  rewrite (ndimension_unbatched d n) by done. simpl. unfold Torch.diag. rewrite Hs.
  intros [= <-]. unfold wf. simpl. rewrite length_join.
  rewrite (sum_list_fmap_same n).
  - rewrite length_imap, Hw, Hs. simpl. lia.
  - apply list.Forall_forall. intros r (i & Hr)%list_elem_of_lookup_1.
    rewrite list_lookup_imap in Hr. destruct (data d !! i); simplify_eq/=.
    by rewrite length_insert, length_replicate.
Qed.

(** X17.  The dense matrix of an unbatched diagonal is symmetric: its
    elements at [(i, j)] and at [(j, i)] are the same.  This is what
    [_t_matmul] and [_transpose_nonbatch] rely on. *)
Theorem evaluate_is_symmetric super_evaluate d (n : nat) :
  shape d = [n] → wf d →
  ∃ dense, evaluate super_evaluate (__init__ d) = Ok dense
    ∧ ∀ i j, i < n → j < n →
        is_Some (get dense [i; j]) ∧ get dense [i; j] = get dense [j; i].
Proof.
  intros Hs Hw.
  destruct (evaluate_entries super_evaluate d n) as (dense & Hdense & _ & Hentry);
    try done.
  exists dense. split; [done |]. intros i j Hi Hj.
  destruct (lookup_lt_is_Some_2 (data d) i) as [x Hx]; [rewrite Hw, Hs; simpl; lia |].
  destruct (lookup_lt_is_Some_2 (data d) j) as [y Hy]; [rewrite Hw, Hs; simpl; lia |].
  rewrite (Hentry i j x), (Hentry j i y) by done. split; [done |].
  destruct (decide (i = j)) as [-> | Hne].
  - rewrite decide_True by done. congruence.
  - by rewrite decide_False by lia.
Qed.

(** X18.  The sum of two diagonal lazy tensors stands for the sum of their
    matrices: for unbatched diagonals of one length, where [0 + 0 = 0], the
    dense matrix of [d1 + d2] is the elementwise sum of the dense matrices of
    [d1] and of [d2]. *)
Theorem evaluate_of_sum_of_diagonals {X : Type} super_evaluate
    (d1 d2 : tensor R) (n : nat) :
  sadd szero szero = (szero : R) →
  shape d1 = [n] → shape d2 = [n] → wf d1 → wf d2 →
  ∃ both m m1 m2,
    __add__ (X := X) (__init__ d1) (Diagonal (__init__ d2)) = Ok (Diagonal both)
    ∧ evaluate super_evaluate both = Ok m
    ∧ evaluate super_evaluate (__init__ d1) = Ok m1
    ∧ evaluate super_evaluate (__init__ d2) = Ok m2
    ∧ add m1 m2 = Ok m.
Proof.
  intros Hzero Hs1 Hs2 Hw1 Hw2.
  set (d12 := Tensor [n] (zip_with sadd (data d1) (data d2))).
  assert (Hw12 : wf d12) by (apply map2_wf; [by rewrite Hw1, Hs1 | by rewrite Hw2, Hs2]).
  destruct (evaluate_entries super_evaluate d12 n) as (m & Hm & Hsm & Hem); try done.
  destruct (evaluate_entries super_evaluate d1 n) as (m1 & Hm1 & Hsm1 & Hem1); try done.
  destruct (evaluate_entries super_evaluate d2 n) as (m2 & Hm2 & Hsm2 & Hem2); try done.
  pose proof (evaluate_wf super_evaluate d12 n m eq_refl Hw12 Hm) as Hwm.
  pose proof (evaluate_wf _ _ _ _ Hs1 Hw1 Hm1) as Hwm1.
  pose proof (evaluate_wf _ _ _ _ Hs2 Hw2 Hm2) as Hwm2.
  exists (__init__ d12), m, m1, m2.
  split.
  { unfold __add__, add. simpl. rewrite map2_same_shape by congruence. by rewrite Hs1. }
  split; [done |]. split; [done |]. split; [done |].
  unfold add. rewrite map2_same_shape by congruence. f_equal.
  destruct m as [sm lm]. simpl in *. subst sm. rewrite Hsm1. f_equal.
  assert (Hlen : ∀ t : tensor R, shape t = [n; n] → wf t → length (data t) = n * n).
  { intros t Ht Hwt. rewrite Hwt, Ht. simpl. lia. }
  apply list_eq. intros o.
  destruct (decide (o < n * n)) as [Ho | Ho].
  - assert (Hn : 0 < n) by lia.
    set (i := o `div` n). set (j := o `mod` n).
    assert (Hi : i < n) by (apply Nat.Div0.div_lt_upper_bound; lia).
    assert (Hj : j < n) by (by apply Nat.mod_upper_bound, Nat.neq_0_lt_0).
    assert (Hoij : o = i * n + j).
    { unfold i, j. rewrite (Nat.div_mod_eq o n) at 1. lia. }
    assert (Hget : ∀ t : tensor R, shape t = [n; n] → get t [i; j] = data t !! o).
    { intros t Ht. unfold get. rewrite Ht, offset_pair by done. simpl. by rewrite Hoij. }
    destruct (lookup_lt_is_Some_2 (data d1) i) as [x Hx]; [rewrite Hw1, Hs1; simpl; lia |].
    destruct (lookup_lt_is_Some_2 (data d2) i) as [y Hy]; [rewrite Hw2, Hs2; simpl; lia |].
    rewrite lookup_zip_with.
    change (lm !! o) with (data (Tensor [n; n] lm) !! o).
    rewrite <- (Hget m1 Hsm1), <- (Hget m2 Hsm2), <- (Hget (Tensor [n; n] lm) eq_refl).
    rewrite (Hem1 i j x), (Hem2 i j y) by done.
    rewrite (Hem i j (sadd x y)); [|done | done |].
    + simpl. destruct (decide (i = j)); [done | by rewrite Hzero].
    + unfold d12. simpl. by rewrite lookup_zip_with, Hx, Hy.
  - rewrite (proj2 (lookup_ge_None (zip_with sadd (data m1) (data m2)) o))
      by (rewrite length_zip_with, (Hlen m1), (Hlen m2) by done; lia).
    symmetry. apply lookup_ge_None.
    pose proof (Hlen (Tensor [n; n] lm) eq_refl Hwm) as Hlm. simpl in Hlm. lia.
Qed.

End DenseMore.

(** ** The further properties at concrete tensors *)

Section ConcreteMore.
Import Examples.

Lemma add_diag_adds_expanded_witness :
  (∃ res, add_diag (__init__ d1234) (vec [10; 20]%Z) = Ok (__init__ res)
     ∧ shape res = [2; 2] ∧ get res [1; 0] = Some 13%Z)
  ∧ add_diag d23 d1234 = Err ExpandMismatch.
Proof.
  split.
  - destruct (add_diag_adds_expanded d1234 (vec [10; 20]%Z) eq_refl eq_refl)
      as (res & Hres & Hshape & _ & Hget).
    exists res. split; [exact Hres |]. split; [exact Hshape |].
    destruct (Hget [1; 0] 3%Z eq_refl) as (y & Hy & Hr).
    cbv in Hy. injection Hy as <-. exact Hr.
  - exact (add_diag_adds_expanded (vec [2; 3]%Z) d1234 eq_refl eq_refl).
Defined.

Lemma add_diagonals_broadcasts_witness :
  (∃ res, __add__ (X := unit) d23 (Diagonal (__init__ d1234))
          = Ok (Diagonal (__init__ res))
     ∧ shape res = [2; 2] ∧ get res [1; 0] = Some 5%Z)
  ∧ __add__ (X := unit) d23 (Diagonal (__init__ (vec [1; 2; 3]%Z)))
    = Err BroadcastMismatch.
Proof.
  split.
  - destruct (add_diagonals_broadcasts (X := unit) (vec [2; 3]%Z) d1234 eq_refl eq_refl)
      as (res & Hres & Hshape & _ & Hget).
    exists res. split; [exact Hres |]. split; [exact Hshape |].
    destruct (Hget [1; 0] (ex_intro _ 2 eq_refl)) as (x & y & Hx & Hy & Hr).
    cbv in Hx, Hy. injection Hx as <-. injection Hy as <-. exact Hr.
  - exact (add_diagonals_broadcasts (X := unit) (vec [2; 3]%Z) (vec [1; 2; 3]%Z)
             eq_refl eq_refl).
Defined.

Lemma matmul_rejects_misfits_witness :
  _matmul d23 (vec [1; 2; 3]%Z) = Err BroadcastMismatch
  ∧ _matmul d23 (Tensor [3; 1] [1; 2; 3]%Z) = Err ExpandMismatch
  ∧ _matmul (__init__ d1234) (vec [5; 7]%Z) = Err ExpandMismatch.
Proof.
  destruct (matmul_rejects_misfits (R := Z)) as (Hvec & Hmat & Hbatch).
  split; [|split].
  - apply (Hvec (vec [2; 3]%Z) (vec [1; 2; 3]%Z) 2 3); (reflexivity || lia).
  - apply (Hmat (vec [2; 3]%Z) (Tensor [3; 1] [1; 2; 3]%Z) 2 3 1); (reflexivity || lia).
  - exact (Hbatch d1234 (vec [5; 7]%Z) 2 2 2 eq_refl eq_refl).
Defined.

Lemma matmul_length_one_diagonal_scales_witness :
  ∃ res, _matmul (__init__ (vec [2%Z])) (vec [5; 7; 9]%Z) = Ok res
    ∧ shape res = [3] ∧ get res [2] = Some 18%Z.
Proof.
  destruct (matmul_length_one_diagonal_scales (vec [2%Z]) (vec [5; 7; 9]%Z) 3
              eq_refl eq_refl eq_refl eq_refl) as (res & Hres & Hshape & _ & Hget).
  exists res. split; [exact Hres |]. split; [exact Hshape |].
  exact (Hget 2 2%Z 9%Z eq_refl eq_refl).
Defined.

Lemma get_indices_wraps_negative_rows_witness :
  ∃ res, _get_indices d23 (vec [-1; -1]%Z) (vec [-1; 1]%Z) = Ok res
    ∧ get res [0] = Some 3%Z ∧ get res [1] = Some 0%Z.
Proof.
  destruct (get_indices_wraps_negative_rows (vec [2; 3]%Z) (vec [-1; -1]%Z)
              (vec [-1; 1]%Z) 2 eq_refl eq_refl eq_refl eq_refl eq_refl)
    as (res & Hres & _ & Hget); [repeat constructor; lia |].
  exists res. split; [exact Hres |]. split.
  - destruct (Hget [0] (-1)%Z (-1)%Z eq_refl eq_refl) as (x & Hx & Hr).
    cbv in Hx. injection Hx as <-. exact Hr.
  - destruct (Hget [1] (-1)%Z 1%Z eq_refl eq_refl) as (x & Hx & Hr).
    cbv in Hx. injection Hx as <-. exact Hr.
Defined.

Lemma get_indices_rejects_out_of_range_witness :
  _get_indices d23 (vec [0; 2]%Z) (vec [0; 0]%Z) = Err IndexOutOfRange
  ∧ _batch_get_indices (__init__ d1234) (vec [0; -3]%Z) (vec [0; 1]%Z) (vec [0; 1]%Z)
    = Err IndexOutOfRange.
Proof.
  destruct (get_indices_rejects_out_of_range (R := Z)) as [Hplain Hbatch]. split.
  - apply (Hplain (vec [2; 3]%Z) (vec [0; 2]%Z) (vec [0; 0]%Z) 2); try reflexivity.
    apply Exists_cons_tl, Exists_cons_hd. lia.
  - apply (Hbatch d1234 (vec [0; -3]%Z) (vec [0; 1]%Z) (vec [0; 1]%Z) 2 2);
      try reflexivity.
    left. apply Exists_cons_tl, Exists_cons_hd. lia.
Defined.

Lemma get_indices_reads_dense_matrix_witness :
  ∃ res dense, _get_indices d23 (vec [0; 1]%Z) (vec [1; 1]%Z) = Ok res
    ∧ evaluate no_super d23 = Ok dense
    ∧ get res [0] = get dense [0; 1] ∧ get res [1] = get dense [1; 1].
Proof.
  destruct (get_indices_reads_dense_matrix no_super (vec [2; 3]%Z) (vec [0; 1]%Z)
              (vec [1; 1]%Z) 2 eq_refl eq_refl eq_refl eq_refl eq_refl)
    as (res & dense & Hres & Hdense & Hget); [repeat constructor; lia ..|].
  exists res, dense. split; [exact Hres |]. split; [exact Hdense |]. split.
  - exact (proj2 (Hget [0] 0%Z 1%Z eq_refl eq_refl)).
  - exact (proj2 (Hget [1] 1%Z 1%Z eq_refl eq_refl)).
Defined.

Lemma matmul_is_dense_product_witness :
  ∃ res dense, _matmul d23 (vec [5; 7]%Z) = Ok res
    ∧ evaluate no_super d23 = Ok dense
    ∧ get res [1] = Some (0 * 5 + 3 * 7)%Z.
Proof.
  destruct (matmul_is_dense_product no_super (vec [2; 3]%Z) (vec [5; 7]%Z) 2
              eq_refl eq_refl eq_refl eq_refl)
    as (res & dense & Hres & Hdense & Hsum).
  exists res, dense. split; [exact Hres |]. split; [exact Hdense |].
  apply (Hsum 1 [0 * 5; 3 * 7]%Z); [lia |].
  injection Hdense as <-.
  repeat constructor.
  - by exists 0%Z, 5%Z.
  - by exists 3%Z, 7%Z.
Defined.

Lemma diagonal_of_other_rank_witness :
  _size (__init__ (Tensor [2; 1; 2] [1; 2; 3; 4]%Z)) = Ok [2; 2]
  ∧ evaluate no_super (__init__ (Tensor [2; 1; 2] [1; 2; 3; 4]%Z)) = Err NotVectorOrMatrix
  ∧ _size (__init__ (Tensor [] [7%Z])) = Err DimOutOfRange.
Proof.
  destruct (diagonal_of_other_rank (R := Z)) as (Hsize & Heval & Hscalar).
  split; [|split].
  - apply (Hsize (Tensor [2; 1; 2] [1; 2; 3; 4]%Z) [2; 1] 2); [reflexivity | simpl; lia].
  - apply (Heval no_super (Tensor [2; 1; 2] [1; 2; 3; 4]%Z) [2; 1] 2);
      [reflexivity | simpl; lia].
  - exact (Hscalar (Tensor [] [7%Z]) eq_refl).
Defined.

Lemma sum_batch_of_unbatched_witness :
  sum_batch d23 None = Ok d23
  ∧ sum_batch d23 (Some 2%Z) = Err InvalidViewShape.
Proof.
  destruct (sum_batch_of_unbatched (vec [2; 3]%Z) 2 eq_refl eq_refl ltac:(lia))
    as [Hsame Hgroups].
  split; [exact Hsame | exact (Hgroups 2 ltac:(lia))].
Defined.

Lemma sum_batch_sizes_witness :
  (∃ total, sum_batch (__init__ d1234) None = Ok total ∧ _size total = Ok [2; 2])
  ∧ (∃ grouped, sum_batch (__init__ d1234) (Some 1%Z) = Ok grouped
       ∧ _size grouped = Ok [2; 2; 2]).
Proof.
  destruct (sum_batch_sizes d1234 2 2 eq_refl ltac:(lia)) as [Hall Hgroups].
  split; [exact Hall |].
  exact (Hgroups 1 ltac:(lia) (ex_intro _ 2 eq_refl)).
Defined.

Lemma sum_batch_groups_then_all_witness :
  ∃ grouped total,
    sum_batch (__init__ (Tensor [4; 2] [1; 2; 3; 4; 5; 6; 7; 8]%Z)) (Some 2%Z) = Ok grouped
    ∧ sum_batch grouped None = Ok total
    ∧ sum_batch (__init__ (Tensor [4; 2] [1; 2; 3; 4; 5; 6; 7; 8]%Z)) None = Ok total.
Proof.
  exact (sum_batch_groups_then_all (Tensor [4; 2] [1; 2; 3; 4; 5; 6; 7; 8]%Z) 4 2 2
           eq_refl eq_refl ltac:(lia) ltac:(lia) (ex_intro _ 2 eq_refl)).
Defined.

Lemma zero_mean_mvn_samples_rejects_witness :
  zero_mean_mvn_samples (λ _, 1%float) (__init__ (vec [4%float])) (-1)
  = Err NegativeSize
  ∧ zero_mean_mvn_samples (λ _, 1%float) (__init__ (Tensor [] [4%float])) 1
    = Err DimOutOfRange.
Proof.
  destruct (zero_mean_mvn_samples_rejects (R := float)) as [Hneg Hscalar]. split.
  - apply (Hneg (λ _, 1%float) (vec [4%float]) (-1)%Z); [lia |].
    left. by exists 1.
  - exact (Hscalar (λ _, 1%float) (Tensor [] [4%float]) 1%Z eq_refl).
Defined.

Lemma matmul_of_sum_of_diagonals_witness :
  ∃ both p p1 p2,
    __add__ (X := unit) d23 (Diagonal (__init__ (vec [10; 20]%Z))) = Ok (Diagonal both)
    ∧ _matmul both (vec [5; 7]%Z) = Ok p
    ∧ _matmul d23 (vec [5; 7]%Z) = Ok p1
    ∧ _matmul (__init__ (vec [10; 20]%Z)) (vec [5; 7]%Z) = Ok p2
    ∧ add p1 p2 = Ok p.
Proof.
  exact (matmul_of_sum_of_diagonals (X := unit) (vec [2; 3]%Z) (vec [10; 20]%Z)
           (vec [5; 7]%Z) 2 eq_refl eq_refl eq_refl eq_refl eq_refl eq_refl).
Defined.

Lemma matmul_of_sum_of_vectors_witness :
  ∃ both p pv pw,
    add (vec [5; 7]%Z) (vec [1; 1]%Z) = Ok both
    ∧ _matmul d23 both = Ok p
    ∧ _matmul d23 (vec [5; 7]%Z) = Ok pv
    ∧ _matmul d23 (vec [1; 1]%Z) = Ok pw
    ∧ add pv pw = Ok p.
Proof.
  exact (matmul_of_sum_of_vectors (vec [2; 3]%Z) (vec [5; 7]%Z) (vec [1; 1]%Z) 2
           eq_refl eq_refl eq_refl eq_refl eq_refl eq_refl).
Defined.

Lemma quad_form_derivative_is_coefficient_witness :
  ∃ q p, _quad_form_derivative d23 (vec [1; 2]%Z) (vec [3; 4]%Z) = Ok [q]
    ∧ _matmul d23 (vec [3; 4]%Z) = Ok p
    ∧ ∃ qi pi, get q [1] = Some qi ∧ get p [1] = Some pi
             ∧ (2 * pi = 3 * qi)%Z.
Proof.
  destruct (quad_form_derivative_is_coefficient (vec [2; 3]%Z) (vec [1; 2]%Z)
              (vec [3; 4]%Z) 2 eq_refl eq_refl eq_refl eq_refl eq_refl eq_refl)
    as (q & p & Hq & Hp & Hterm).
  exists q, p. split; [exact Hq |]. split; [exact Hp |].
  exact (Hterm 1 2%Z 3%Z eq_refl eq_refl).
Defined.

Lemma evaluate_is_symmetric_witness :
  ∃ dense, evaluate no_super d23 = Ok dense
    ∧ get dense [0; 1] = get dense [1; 0].
Proof.
  destruct (evaluate_is_symmetric no_super (vec [2; 3]%Z) 2 eq_refl eq_refl)
    as (dense & Hdense & Hsym).
  exists dense. split; [exact Hdense |].
  exact (proj2 (Hsym 0 1 ltac:(lia) ltac:(lia))).
Defined.

Lemma evaluate_of_sum_of_diagonals_witness :
  ∃ both m m1 m2,
    __add__ (X := unit) d23 (Diagonal (__init__ (vec [10; 20]%Z))) = Ok (Diagonal both)
    ∧ evaluate no_super both = Ok m
    ∧ evaluate no_super d23 = Ok m1
    ∧ evaluate no_super (__init__ (vec [10; 20]%Z)) = Ok m2
    ∧ add m1 m2 = Ok m.
Proof.
  exact (evaluate_of_sum_of_diagonals (X := unit) no_super (vec [2; 3]%Z)
           (vec [10; 20]%Z) 2 eq_refl eq_refl eq_refl eq_refl eq_refl).
Defined.

End ConcreteMore.
